(** * discord-ircv3: a model of the IRC <-> Discord relay of [main.go]

    The development embeds the two text translators ([discordFormat],
    [discordIRCFormat]), the message correlation tables ([idIRCDiscord],
    [idDiscordIRC]) and the two event handlers that use them ([ircHandler],
    [discordMessage]).  Go strings are byte sequences and are modelled as
    [list ascii]; Go maps from strings to slices are [gmap]s whose missing
    keys read as the empty list; a run-time panic (index out of range) is an
    explicit outcome of the handler monad. *)

From Stdlib Require Import ZArith Ascii String List Lia.
From stdpp Require Import base gmap strings list.

Open Scope Z_scope.

(** ** Go strings *)

Abbreviation gostring := (list ascii).
Abbreviation bs := list_ascii_of_string.

Definition byteZ (c : ascii) : Z := Z.of_N (N_of_ascii c).
Definition zbyte (z : Z) : ascii := ascii_of_N (Z.to_N z).

(** The test [len(s) == 0] that the source writes as a comparison with the
    empty string. *)
Definition isEmpty (s : gostring) : bool :=
  match s with [] => true | _ :: _ => false end.

(** [strings.HasPrefix]. *)
Fixpoint HasPrefix (s p : gostring) : bool :=
  match p, s with
  | [], _ => true
  | _ :: _, [] => false
  | a :: p', b :: s' => if decide (a = b) then HasPrefix s' p' else false
  end.

(** [strings.HasSuffix]. *)
Definition HasSuffix (s p : gostring) : bool :=
  HasPrefix (rev s) (rev p).

(** [strings.TrimPrefix]. *)
Definition TrimPrefix (s p : gostring) : gostring :=
  if HasPrefix s p then drop (length p) s else s.

(** [strings.IndexByte]; [None] stands for the result [-1]. *)
Fixpoint IndexByte (s : gostring) (c : ascii) : option nat :=
  match s with
  | [] => None
  | b :: s' => if decide (b = c) then Some 0%nat else S <$> IndexByte s' c
  end.

(** [strings.Cut s sep] for a one-byte separator: text before and after the
    first separator, or the whole text and the empty string. *)
Definition Cut (s : gostring) (sep : ascii) : gostring * gostring :=
  match IndexByte s sep with
  | Some k => (take k s, drop (S k) s)
  | None => (s, [])
  end.

(** [strings.Trim s cutset] for a one-byte cutset. *)
Fixpoint TrimLeftByte (s : gostring) (c : ascii) : gostring :=
  match s with
  | b :: s' => if decide (b = c) then TrimLeftByte s' c else s
  | [] => []
  end.

Definition TrimByte (s : gostring) (c : ascii) : gostring :=
  rev (TrimLeftByte (rev (TrimLeftByte s c)) c).

(** ** Formatting bytes (the constants of [main.go]) *)

Definition fBold          : ascii := "002"%char.
Definition fItalics       : ascii := "029"%char.
Definition fUnderline     : ascii := "031"%char.
Definition fStrikethrough : ascii := "030"%char.
Definition fMonospace     : ascii := "017"%char.
Definition fColor         : ascii := "003"%char.
Definition fColorHex      : ascii := "004"%char.
Definition fReverse       : ascii := "022"%char.
Definition fReset         : ascii := "015"%char.

(** The UTF-8 encoding of U+200B (zero width space), the string literal
    with the escape u200B in the source. *)
Definition zwsp : gostring := ["226"; "128"; "139"]%char.

(** ** UTF-8, as [unicode/utf8] decodes and encodes it *)

Definition RuneError : Z := 0xFFFD.

Definition isCont (lo hi : Z) (c : ascii) : bool :=
  (lo <=? byteZ c) && (byteZ c <=? hi).

(** [utf8.DecodeRuneInString]: the first rune and its width in bytes.  An
    empty string gives [(RuneError, 0)]; an invalid or truncated encoding
    gives [(RuneError, 1)].  The second byte of a three- or four-byte form is
    restricted so that overlong forms, surrogates and values above U+10FFFF
    are refused. *)
Definition DecodeRuneInString (s : gostring) : Z * nat :=
  match s with
  | [] => (RuneError, 0%nat)
  | b0 :: t =>
    let x := byteZ b0 in
    if x <? 0x80 then (x, 1%nat)
    else if x <? 0xC2 then (RuneError, 1%nat)
    else if x <? 0xE0 then
      match t with
      | b1 :: _ =>
        if isCont 0x80 0xBF b1
        then (Z.lor (Z.shiftl (Z.land x 0x1F) 6) (Z.land (byteZ b1) 0x3F), 2%nat)
        else (RuneError, 1%nat)
      | _ => (RuneError, 1%nat)
      end
    else if x <? 0xF0 then
      let lo := if x =? 0xE0 then 0xA0 else 0x80 in
      let hi := if x =? 0xED then 0x9F else 0xBF in
      match t with
      | b1 :: b2 :: _ =>
        if isCont lo hi b1 && isCont 0x80 0xBF b2
        then (Z.lor (Z.lor (Z.shiftl (Z.land x 0x0F) 12)
                           (Z.shiftl (Z.land (byteZ b1) 0x3F) 6))
                    (Z.land (byteZ b2) 0x3F), 3%nat)
        else (RuneError, 1%nat)
      | _ => (RuneError, 1%nat)
      end
    else if x <? 0xF5 then
      let lo := if x =? 0xF0 then 0x90 else 0x80 in
      let hi := if x =? 0xF4 then 0x8F else 0xBF in
      match t with
      | b1 :: b2 :: b3 :: _ =>
        if isCont lo hi b1 && isCont 0x80 0xBF b2 && isCont 0x80 0xBF b3
        then (Z.lor (Z.lor (Z.lor (Z.shiftl (Z.land x 0x07) 18)
                                  (Z.shiftl (Z.land (byteZ b1) 0x3F) 12))
                           (Z.shiftl (Z.land (byteZ b2) 0x3F) 6))
                    (Z.land (byteZ b3) 0x3F), 4%nat)
        else (RuneError, 1%nat)
      | _ => (RuneError, 1%nat)
      end
    else (RuneError, 1%nat)
  end.

(** [utf8.AppendRune], which is what the conversion [string([]rune{...})]
    applies to each rune: surrogates and values outside the Unicode range
    are encoded as U+FFFD. *)
Definition EncodeRune (r : Z) : gostring :=
  let r := if (r <? 0) || (0x10FFFF <? r) || ((0xD800 <=? r) && (r <=? 0xDFFF))
           then RuneError else r in
  if r <? 0x80 then [zbyte r]
  else if r <? 0x800 then
    [zbyte (Z.lor 0xC0 (Z.shiftr r 6));
     zbyte (Z.lor 0x80 (Z.land r 0x3F))]
  else if r <? 0x10000 then
    [zbyte (Z.lor 0xE0 (Z.shiftr r 12));
     zbyte (Z.lor 0x80 (Z.land (Z.shiftr r 6) 0x3F));
     zbyte (Z.lor 0x80 (Z.land r 0x3F))]
  else
    [zbyte (Z.lor 0xF0 (Z.shiftr r 18));
     zbyte (Z.lor 0x80 (Z.land (Z.shiftr r 12) 0x3F));
     zbyte (Z.lor 0x80 (Z.land (Z.shiftr r 6) 0x3F));
     zbyte (Z.lor 0x80 (Z.land r 0x3F))].

(** [string([]rune{...})]. *)
Definition stringOfRunes (rs : list Z) : gostring :=
  concat (map EncodeRune rs).

(** ** The two regular expressions of [main.go]

    Go's [regexp] package is not part of the repository; the two patterns are
    modelled by direct matchers.  Both patterns are anchored at the start of
    the text, every byte they exclude is ASCII, and a rune that is not ASCII
    (an invalid byte included, which the package reads as U+FFFD) belongs to
    both negated classes, so the classes are decided byte by byte. *)

(** The class [\s]: tab, line feed, form feed, carriage return, space. *)
Definition isSpaceRE (c : ascii) : bool :=
  let x := byteZ c in
  (x =? 9) || (x =? 10) || (x =? 12) || (x =? 13) || (x =? 32).

(** The prefix [https?://] and its length. *)
Definition schemeLen (s : gostring) : option nat :=
  if HasPrefix s (bs "https://") then Some 8%nat
  else if HasPrefix s (bs "http://") then Some 7%nat
  else None.

(** The class [[^\s<]] of [patternURL]. *)
Definition urlBody (c : ascii) : bool :=
  negb (isSpaceRE c) && negb (Ascii.eqb c "<").

(** The second class of [patternURL]: [urlBody] without the full stop, comma,
    colon, semicolon, double quote, apostrophe, closing parenthesis and
    closing bracket. *)
Definition urlLast (c : ascii) : bool :=
  urlBody c &&
  negb (existsb (Ascii.eqb c) [".";",";":";";";"034";"'";")";"]"]%char).

Fixpoint takeWhile (P : ascii -> bool) (s : gostring) : gostring :=
  match s with
  | c :: s' => if P c then c :: takeWhile P s' else []
  | [] => []
  end.

(** The largest index of a byte that satisfies [P]. *)
Fixpoint lastWhere (P : ascii -> bool) (s : gostring) : option nat :=
  match s with
  | [] => None
  | c :: s' =>
    match lastWhere P s' with
    | Some k => Some (S k)
    | None => if P c then Some 0%nat else None
    end
  end.

(** [patternURL.FindStringIndex(s)] for
    [patternURL = ^(https?://B+L)], where B is the class [urlBody] and L
    the class [urlLast]: the end [loc[1]] of
    the match ([loc[0]] is always [0]), or [None] for [nil].  After the
    scheme the greedy [+] takes the longest run of [urlBody] bytes and gives
    back until the next rune is in [urlLast]; the match therefore ends after
    the last [urlLast] byte of the run, which must lie beyond the first rune
    because [+] keeps at least one rune. *)
Definition patternURL_FindStringIndex (s : gostring) : option nat :=
  match schemeLen s with
  | None => None
  | Some n =>
    let rest := drop n s in
    match lastWhere urlLast (takeWhile urlBody rest) with
    | Some j =>
      if (snd (DecodeRuneInString rest) <=? j)%nat then Some (n + j + 1)%nat
      else None
    | None => None
    end
  end.

(** The class [[^\s\x01-\x16]] of [patternMediaLink]. *)
Definition mediaBody (c : ascii) : bool :=
  negb (isSpaceRE c) && negb ((1 <=? byteZ c) && (byteZ c <=? 0x16)).

Definition mediaExtensions : list gostring :=
  [bs "jpg"; bs "jpeg"; bs "png"; bs "gif"; bs "mp4"; bs "webm"].

(** [patternMediaLink.MatchString(s)] for [patternMediaLink =
    ^https?://[^\s\x01-\x16]+\.(?:jpg|jpeg|png|gif|mp4|webm)$]: the text is a
    scheme, a non-empty run of [mediaBody] bytes, a dot and one of the
    extensions, up to the end of the text. *)
Definition patternMediaLink_MatchString (s : gostring) : bool :=
  match schemeLen s with
  | None => false
  | Some n =>
    existsb (fun ext =>
      let tail := "." %char :: ext in
      HasSuffix s tail &&
      (n + 1 + length tail <=? length s)%nat &&
      forallb mediaBody (take (length s - n - length tail) (drop n s)))
      mediaExtensions
  end.

(** ** The control-code parser [discordFormat] *)

Record ircStyle : Type := mkStyle {
  italics : bool;
  bold : bool;
  underline : bool;
  strikethrough : bool
}.

(** The zero value [ircStyle{}]. *)
Definition noStyle : ircStyle := mkStyle false false false false.

(** Go's [==] on the struct. *)
Definition style_eqb (a b : ircStyle) : bool :=
  Bool.eqb (italics a) (italics b) && Bool.eqb (bold a) (bold b) &&
  Bool.eqb (underline a) (underline b) &&
  Bool.eqb (strikethrough a) (strikethrough b).

Definition isDigit (s : gostring) (i : nat) : bool :=
  match s !! i with
  | None => false
  | Some c => (48 <=? byteZ c) && (byteZ c <=? 57)
  end.

(** The variables of the loop of [discordFormat]: the index [i], the two
    styles, the [raw] flag, [urlEnd], and the contents of the builder [sb]. *)
Record fmtState : Type := mkFmt {
  pos : nat;
  prevStyle : ircStyle;
  nextStyle : ircStyle;
  raw : bool;
  urlEnd : nat;
  sb : gostring
}.

Definition fmtInit : fmtState := mkFmt 0 noStyle noStyle false 0 [].

(** The markers written when a run in style [p] ends (lines 252-263). *)
Definition closeMarkers (p : ircStyle) : gostring :=
  (if italics p then bs "*" else []) ++
  (if bold p then bs "**" else []) ++
  (if underline p then bs "__" else []) ++
  (if strikethrough p then bs "~~" else []).

(** The markers written when a run in style [n] starts (lines 269-280). *)
Definition openMarkers (n : ircStyle) : gostring :=
  (if strikethrough n then bs "~~" else []) ++
  (if underline n then bs "__" else []) ++
  (if bold n then bs "**" else []) ++
  (if italics n then bs "*" else []).

(** The index reached by the [fColor] case when a digit follows the marker
    (lines 212-221); the loop's own [i++] is not included. *)
Definition colorSkip (msg : gostring) (i : nat) : nat :=
  let i1 := (i + 1)%nat in
  let i2 := if isDigit msg (i1 + 1) then (i1 + 1)%nat else i1 in
  if isDigit msg (i2 + 2) && bool_decide (msg !! (i2 + 1)%nat = Some ","%char)
  then
    let i3 := (i2 + 2)%nat in
    if isDigit msg (i3 + 1) then (i3 + 1)%nat else i3
  else i2.

(** What the [switch] does with the byte at [i], outside a raw span: either
    [continue] with a new index, or fall out of the switch with the updated
    [nextStyle], [raw] and the text [write]. *)
Inductive switchResult : Type :=
  | Continue (i' : nat)
  | Fall (next' : ircStyle) (raw' : bool) (write : gostring).

Definition switchByte (msg : gostring) (i : nat) (c : ascii)
    (next : ircStyle) (raw0 : bool) (urlEnd' : nat) : switchResult :=
  if decide (c = fBold) then
    Fall (mkStyle (italics next) true (underline next) (strikethrough next)) raw0 []
  else if decide (c = fItalics) then
    Fall (mkStyle true (bold next) (underline next) (strikethrough next)) raw0 []
  else if decide (c = fUnderline) then
    Fall (mkStyle (italics next) (bold next) true (strikethrough next)) raw0 []
  else if decide (c = fStrikethrough) then
    Fall (mkStyle (italics next) (bold next) (underline next) true) raw0 []
  else if decide (c = fReset) then
    Fall noStyle raw0 []
  else if decide (c = fMonospace \/ c = fReverse) then
    Continue i
  else if decide (c = fColor) then
    if negb (isDigit msg (i + 1)) then Continue i
    else Continue (colorSkip msg i)
  else if decide (c = fColorHex) then
    Continue (i + 6)
  else if decide (c = "`"%char) then
    let raw' :=
      if negb raw0 then
        match IndexByte (drop (i + 1) msg) "`"%char with
        | Some k => if (0 <? k)%nat then true else raw0
        | None => raw0
        end
      else false in
    Fall next raw' [c]
  else if decide (c = "\"%char \/ c = "*"%char \/ c = "_"%char \/ c = "~"%char) then
    if (urlEnd' <=? i)%nat then Fall next raw0 ("\"%char :: [c])
    else Fall next raw0 [c]
  else Fall next raw0 [c].

(** One iteration of the loop, its [i++] included.  The guard [i < len(msg)]
    holds when the body runs, so the byte [msg[i]] exists. *)
Definition iter (msg : gostring) (st : fmtState) : fmtState :=
  let i := pos st in
  match msg !! i with
  | None => st
  | Some c =>
    if raw st && negb (bool_decide (c = "`"%char)) then
      mkFmt (i + 1) (prevStyle st) (nextStyle st) (raw st) (urlEnd st)
            (sb st ++ [c])
    else
      let urlEnd' :=
        if (urlEnd st <=? i)%nat then
          match patternURL_FindStringIndex (drop i msg) with
          | Some e => (i + e)%nat
          | None => urlEnd st
          end
        else urlEnd st in
      match switchByte msg i c (nextStyle st) (raw st) urlEnd' with
      | Continue i' =>
        mkFmt (i' + 1) (prevStyle st) (nextStyle st) (raw st) urlEnd' (sb st)
      | Fall next' raw' write =>
        if isEmpty write && (i + 1 <? length msg)%nat then
          mkFmt (i + 1) (prevStyle st) next' raw' urlEnd' (sb st)
        else if style_eqb (prevStyle st) next' then
          mkFmt (i + 1) (prevStyle st) next' raw' urlEnd' (sb st ++ write)
        else
          let closed := sb st ++ closeMarkers (prevStyle st) in
          if isEmpty write then
            mkFmt (i + 1) noStyle next' raw' urlEnd' closed
          else
            mkFmt (i + 1) next' next' raw' urlEnd'
                  (closed ++ zwsp ++ openMarkers next' ++ write)
      end
  end.

(** The loop [for i := 0; i < len(msg); i++]; every iteration advances [i],
    so [len(msg)] iterations are enough (see [fmtLoop_done]). *)
Fixpoint fmtLoop (fuel : nat) (msg : gostring) (st : fmtState) : fmtState :=
  match fuel with
  | O => st
  | S fuel' =>
    if (pos st <? length msg)%nat then fmtLoop fuel' msg (iter msg st) else st
  end.

(** The state in which the loop of [discordFormat msg] ends; the text
    scanned is [msg] followed by [fReset] (line 176). *)
Definition discordFormatRun (msg : gostring) : fmtState :=
  let msg' := msg ++ [fReset] in
  fmtLoop (length msg') msg' fmtInit.

Definition discordFormat (msg : gostring) : gostring :=
  sb (discordFormatRun msg).

(** ** Messages and calls of the two client libraries *)

Module irc.
(** [irc.Message]: the tags (a missing tag reads as the empty string), the
    name of the prefix ([m.Name] is [m.Prefix.Name]), the command and the
    parameters, the trailing one last. *)
Record Message : Type := mkMessage {
  Tags : gmap gostring gostring;
  Name : gostring;
  Command : gostring;
  Params : list gostring
}.

(** What the handlers ask of an [irc.Client]. *)
Record Client : Type := mkClient {
  CurrentNick : gostring;
  CapEnabled : gostring -> bool
}.
End irc.

Module discordgo.
(** The fields of a [discordgo.MessageCreate] that [discordMessage] reads.
    [Member] is a pointer in the source: [None] is [nil], [Some nick] a
    member whose [Nick] is [nick]. *)
Record MessageCreate : Type := mkMessageCreate {
  ID : gostring;
  ChannelID : gostring;
  GuildID : gostring;
  Content : gostring;
  AuthorID : gostring;
  AuthorUsername : gostring;
  AuthorAccentColor : Z;
  Member : option gostring;
  MessageReference : option gostring;
  Attachments : list gostring
}.

(** The calls made on the Discord session. *)
Inductive Call : Type :=
  | ChannelMessageSendComplex (channel content : gostring)
      (reference : option (gostring * gostring))
  | ChannelMessageDelete (channel id : gostring)
  | ChannelTyping (channel : gostring).
End discordgo.

(** The rich-text tree of the package [discord-formatting], with the node
    types that the callback of [discordIRCFormat] distinguishes. *)
#[warnings="-register-all"]
Inductive Node : Type :=
  | TextNode (Content : gostring)
  | BlockQuoteNode (children : list Node)
  | CodeNode (Language Content : gostring)
  | SpoilerNode (children : list Node)
  | URLNode (URL : gostring)
  | EmojiNode (Text : gostring)
  | ChannelMentionNode (ID : gostring)
  | RoleMentionNode (ID : gostring)
  | UserMentionNode (ID : gostring)
  | SpecialMentionNode (Mention : gostring)
  | TimestampNode (Stamp Format : gostring)
  | BoldNode (children : list Node)
  | UnderlineNode (children : list Node)
  | ItalicsNode (children : list Node)
  | StrikethroughNode (children : list Node).

(** ** State and environment of the bridge *)

(** The package-level variables that the handlers read and write, and the
    traffic they produce: [ircClient] is [None] for [nil]; [ircOut] lists the
    messages written to the IRC connection and [discordOut] the calls made on
    the Discord session, oldest first. *)
Record World : Type := mkWorld {
  idIRCDiscord : gmap gostring (list gostring);
  idDiscordIRC : gmap gostring (list gostring);
  ircReady : bool;
  ircClient : option irc.Client;
  ircOut : list irc.Message;
  discordOut : list discordgo.Call
}.

Definition emptyWorld : World := mkWorld ∅ ∅ false None [] [].

(** What the handlers take from the configuration and from their
    collaborators.  [cfg_Channels] is [cfg.Channels] (Discord channel ID to
    IRC channel name) as the list of its entries in the order a [range]
    visits them, which Go leaves unspecified.  [sendResult] is the answer of
    Discord to a [ChannelMessageSendComplex], given all calls made so far,
    this one last: the ID of the new message, or [None] for an error. *)
Record Env : Type := mkEnv {
  cfg_Channels : list (gostring * gostring);
  sendResult : list discordgo.Call -> option gostring;
  discordTransformPart : gostring -> gostring -> gostring;
  stateUserID : gostring;
  stateChannel : gostring -> option gostring;
  stateRole : gostring -> gostring -> option gostring;
  stateMember : gostring -> gostring -> option gostring;
  stateMessageColor : discordgo.MessageCreate -> Z;
  discordParser_Parse : gostring -> list Node;
  timeFormat : Z -> gostring -> gostring;
  timeSince : Z -> Z;
  durationString : Z -> gostring
}.

(** ** The handler monad: state passing, with panics *)

Inductive outcome (A : Type) : Type :=
  | Done (a : A) (w : World)
  | Panicked.
Arguments Done {A} a w.
Arguments Panicked {A}.

Definition M (A : Type) : Type := World -> outcome A.

#[global] Instance M_ret : MRet M := fun A a w => Done a w.
#[global] Instance M_bind : MBind M := fun A B f m w =>
  match m w with
  | Done a w' => f a w'
  | Panicked => Panicked
  end.

Definition getWorld : M World := fun w => Done w w.
Definition modify (f : World -> World) : M unit := fun w => Done tt (f w).
Definition panic {A : Type} : M A := fun _ => Panicked.

(** [l[i]] for a Go slice: an index out of range panics. *)
Definition index {A : Type} (l : list A) (i : Z) : M A :=
  if i <? 0 then panic
  else match l !! Z.to_nat i with
       | Some x => mret x
       | None => panic
       end.

(** [for _, x := range l { f x }]. *)
Fixpoint forEach {A : Type} (l : list A) (f : A -> M unit) : M unit :=
  match l with
  | [] => mret tt
  | x :: l' => f x ;; forEach l' f
  end.

(** ** The correlation tables *)

(** The two assignments of [discordSend] (lines 379-380), in order; the
    second reads [idIRCDiscord] as the first has left it. *)
Definition recordSent (id mID : gostring) (w : World) : World :=
  let tbl := <[id := (idIRCDiscord w !!! id) ++ [mID]]> (idIRCDiscord w) in
  mkWorld tbl
          (<[mID := (tbl !!! mID) ++ [id]]> (idDiscordIRC w))
          (ircReady w) (ircClient w) (ircOut w) (discordOut w).

(** The two assignments of [ircHandler] for the bridge's own echoed message
    (lines 495-496). *)
Definition recordEcho (msgID discordID : gostring) (w : World) : World :=
  mkWorld (<[msgID := (idIRCDiscord w !!! msgID) ++ [discordID]]> (idIRCDiscord w))
          (<[discordID := (idDiscordIRC w !!! discordID) ++ [msgID]]> (idDiscordIRC w))
          (ircReady w) (ircClient w) (ircOut w) (discordOut w).

(** The reply target of [ircHandler] (lines 389-392): [ids[len(ids)-1]] when
    the list is not empty, the empty string otherwise. *)
Definition ircReplyID (tbl : gmap gostring (list gostring)) (tag : gostring)
    : gostring :=
  let ids := tbl !!! tag in
  if (0 <? length ids)%nat then default [] (ids !! (length ids - 1)%nat)
  else [].

(** The reply target of [discordMessage] (lines 674-679): [ids[0]] when the
    message refers to another one whose list is not empty. *)
Definition discordReplyID (tbl : gmap gostring (list gostring))
    (reference : option gostring) : gostring :=
  match reference with
  | Some messageID =>
    let ids := tbl !!! messageID in
    if (0 <? length ids)%nat then default [] (ids !! 0%nat) else []
  | None => []
  end.

(** ** From IRC to Discord *)

(** [discordChannel]: the Discord channel mapped to an IRC channel name, or
    the empty string. *)
Definition discordChannel (env : Env) (ircName : gostring) : gostring :=
  match List.find (fun e => bool_decide (snd e = ircName)) (cfg_Channels env) with
  | Some (dc, _) => dc
  | None => []
  end.

(** The loop of [discordTransform]: text outside backtick spans goes through
    [discordTransformPart], the spans are copied.  [rawEnd] is [rawStart]
    when no closing backtick follows ([IndexByte] gives [-1]), and the test
    [rawEnd >= 0] of the source always holds.  Every iteration that continues
    removes at least one byte, so [len(msg)] iterations are enough. *)
Fixpoint discordTransformLoop (fuel : nat) (env : Env) (channel msg : gostring)
    : gostring :=
  match fuel with
  | O => []
  | S fuel' =>
    if isEmpty msg then []
    else
      match IndexByte msg "`"%char with
      | Some rawStart =>
        let rawEnd :=
          match IndexByte (drop (rawStart + 1) msg) "`"%char with
          | Some k => (rawStart + 1 + k)%nat
          | None => rawStart
          end in
        if (0 <? rawStart)%nat then
          discordTransformPart env channel (take rawStart msg) ++
          take (rawEnd + 1 - rawStart) (drop rawStart msg) ++
          discordTransformLoop fuel' env channel (drop (rawEnd + 1) msg)
        else discordTransformPart env channel msg
      | None => discordTransformPart env channel msg
      end
  end.

Definition discordTransform (env : Env) (channel msg : gostring) : gostring :=
  discordTransformLoop (length msg) env channel msg.

(** [discordSend]: translate, send, and on success record the pair of IDs
    when the IRC message has one. *)
Definition discordSend (env : Env) (id channel msg replyID : gostring) : M unit :=
  let msg := discordFormat msg in
  let msg := discordTransform env channel msg in
  let reference := if isEmpty replyID then None else Some (replyID, channel) in
  w ← getWorld;
  let calls := discordOut w ++ [discordgo.ChannelMessageSendComplex channel msg reference] in
  modify (fun w => mkWorld (idIRCDiscord w) (idDiscordIRC w) (ircReady w)
                           (ircClient w) (ircOut w) calls) ;;
  match sendResult env calls with
  | Some mID => if negb (isEmpty id) then modify (recordSent id mID) else mret tt
  | None => mret tt
  end.

(** [c.WriteMessage(m)] on the client the handler was called with. *)
Definition clientWrite (m : irc.Message) : M unit :=
  modify (fun w => mkWorld (idIRCDiscord w) (idDiscordIRC w) (ircReady w)
                           (ircClient w) (ircOut w ++ [m]) (discordOut w)).

Definition discordCall (call : discordgo.Call) : M unit :=
  modify (fun w => mkWorld (idIRCDiscord w) (idDiscordIRC w) (ircReady w)
                           (ircClient w) (ircOut w) (discordOut w ++ [call])).

Definition outMessage (command : gostring) (params : list gostring) : irc.Message :=
  irc.mkMessage ∅ [] command params.

(** The first [switch] of [ircHandler] (lines 394-428); the result is
    [handled]. *)
Definition ircHandshake (env : Env) (c : irc.Client) (m : irc.Message) : M bool :=
  let cmd := irc.Command m in
  if decide (cmd = bs "001") then
    forEach (cfg_Channels env) (fun e => clientWrite (outMessage (bs "JOIN") [snd e])) ;;
    modify (fun w => mkWorld (idIRCDiscord w) (idDiscordIRC w) (ircReady w)
                             (Some c) (ircOut w) (discordOut w)) ;;
    mret true
  else if decide (cmd = bs "005") then
    (if (2 <? length (irc.Params m))%nat then
       forEach (take (length (irc.Params m) - 2) (drop 1 (irc.Params m)))
         (fun param =>
            let '(key, value) := Cut param "="%char in
            if decide (key = bs "BOT") then
              clientWrite (outMessage (bs "MODE") [irc.CurrentNick c; bs "+" ++ value])
            else mret tt)
     else mret tt) ;;
    clientWrite (outMessage (bs "PING") [bs "ready"]) ;;
    mret true
  else if decide (cmd = bs "PONG") then
    last ← index (irc.Params m) (Z.of_nat (length (irc.Params m)) - 1);
    (if decide (last = bs "ready") then
       modify (fun w => mkWorld (idIRCDiscord w) (idDiscordIRC w) true
                                (ircClient w) (ircOut w) (discordOut w))
     else mret tt) ;;
    mret true
  else mret false.

(** The [PRIVMSG] case of [ircHandler] (lines 488-520). *)
Definition ircPrivmsg (env : Env) (c : irc.Client) (m : irc.Message)
    (msgID replyID : gostring) : M unit :=
  target ← index (irc.Params m) 0;
  let dc := discordChannel env target in
  if isEmpty dc then mret tt
  else if decide (irc.Name m = irc.CurrentNick c) then
    let discordID := irc.Tags m !!! bs "+discord" in
    if negb (isEmpty discordID) then modify (recordEcho msgID discordID)
    else mret tt
  else
    body ← index (irc.Params m) 1;
    let body :=
      if negb (isEmpty replyID)
      then TrimPrefix body (irc.CurrentNick c ++ bs ": ") else body in
    first ← index body 0;
    let send (body : gostring) : M unit :=
      if negb (bool_decide (" "%char ∈ body)) && patternMediaLink_MatchString body then
        discordSend env [] dc (fBold :: bs "<" ++ irc.Name m ++ bs ">") replyID ;;
        discordSend env msgID dc body replyID
      else
        discordSend env msgID dc
          (fBold :: bs "<" ++ irc.Name m ++ bs ">" ++ fReset :: bs " " ++ body)
          replyID in
    if decide (first = "001"%char) then
      let body := TrimByte (drop 1 body) "001"%char in
      let '(verb, data) := Cut body " "%char in
      if decide (verb = bs "ACTION") then send (fItalics :: data)
      else mret tt
    else send body.

(** [ircHandler]. *)
Definition ircHandler (env : Env) (c : irc.Client) (m : irc.Message) : M unit :=
  let cmd := irc.Command m in
  if bool_decide (irc.Name m = irc.CurrentNick c) &&
     negb (bool_decide (cmd = bs "PRIVMSG")) then mret tt
  else
    let msgID := irc.Tags m !!! bs "msgid" in
    w ← getWorld;
    let replyID := ircReplyID (idIRCDiscord w) (irc.Tags m !!! bs "+draft/reply") in
    handled ← ircHandshake env c m;
    w ← getWorld;
    if handled || negb (ircReady w) then mret tt
    else
      let name := irc.Name m in
      let notice (dc text : gostring) := discordSend env msgID dc text replyID in
      if decide (cmd = bs "NICK") then
        forEach (cfg_Channels env) (fun e =>
          new ← index (irc.Params m) 0;
          notice (fst e) (fItalics :: name ++ fReset :: bs " is now known as " ++ new))
      else if decide (cmd = bs "JOIN") then
        target ← index (irc.Params m) 0;
        let dc := discordChannel env target in
        if isEmpty dc then mret tt
        else notice dc (fItalics :: name ++ fReset :: bs " has joined the channel")
      else if decide (cmd = bs "PART") then
        target ← index (irc.Params m) 0;
        let dc := discordChannel env target in
        if isEmpty dc then mret tt
        else if (1 <? length (irc.Params m))%nat then
          reason ← index (irc.Params m) 1;
          notice dc (fItalics :: name ++ fReset :: bs " has left the channel: " ++ reason)
        else notice dc (fItalics :: name ++ fReset :: bs " has left the channel")
      else if decide (cmd = bs "KICK") then
        target ← index (irc.Params m) 0;
        let dc := discordChannel env target in
        if isEmpty dc then mret tt
        else if (2 <? length (irc.Params m))%nat then
          who ← index (irc.Params m) 1;
          reason ← index (irc.Params m) 2;
          notice dc (fItalics :: who ++ fReset :: bs " was kicked off the channel by " ++
                     name ++ bs ": " ++ reason)
        else
          who ← index (irc.Params m) 1;
          notice dc (fItalics :: who ++ fReset :: bs " was kicked off the channel by " ++ name)
      else if decide (cmd = bs "QUIT") then
        forEach (cfg_Channels env) (fun e =>
          if (0 <? length (irc.Params m))%nat then
            reason ← index (irc.Params m) 0;
            notice (fst e) (fItalics :: name ++ fReset :: bs " has quit: " ++ reason)
          else notice (fst e) (fItalics :: name ++ fReset :: bs " has quit"))
      else if decide (cmd = bs "REDACT") then
        target ← index (irc.Params m) 0;
        let dc := discordChannel env target in
        if isEmpty dc then mret tt
        else
          redacted ← index (irc.Params m) 1;
          w ← getWorld;
          forEach (idIRCDiscord w !!! redacted) (fun id =>
            discordCall (discordgo.ChannelMessageDelete dc id))
      else if decide (cmd = bs "TAGMSG") then
        target ← index (irc.Params m) 0;
        let dc := discordChannel env target in
        if isEmpty dc then mret tt
        else if decide (irc.Tags m !!! bs "+typing" = bs "active") then
          discordCall (discordgo.ChannelTyping dc)
        else mret tt
      else if decide (cmd = bs "PRIVMSG") then ircPrivmsg env c m msgID replyID
      else mret tt.

(** ** From Discord to IRC *)

(** [replacerNewline.Replace]: a [strings.Replacer] scans the text from left
    to right and, at each position, applies the first of its pairs (in
    argument order: CR LF, then LF, then CR) whose old string starts there. *)
Fixpoint replacerNewline_Replace (s : gostring) : gostring :=
  match s with
  | [] => []
  | c :: s' =>
    if decide (c = "013"%char) then
      match s' with
      | d :: s'' =>
        if decide (d = "010"%char) then " "%char :: replacerNewline_Replace s''
        else " "%char :: replacerNewline_Replace s'
      | [] => " "%char :: replacerNewline_Replace s'
      end
    else if decide (c = "010"%char) then " "%char :: replacerNewline_Replace s'
    else c :: replacerNewline_Replace s'
  end.

Definition validColors : list Z := [2; 3; 4; 6; 7; 8; 9; 10; 11; 12; 13].

(** [strconv.ParseInt(s, 10, 64)]; [None] stands for a non-nil error (bad
    syntax or a value outside the 64-bit range). *)
Fixpoint parseDigits (s : gostring) (acc : Z) : option Z :=
  match s with
  | [] => Some acc
  | c :: s' =>
    if (48 <=? byteZ c) && (byteZ c <=? 57)
    then parseDigits s' (10 * acc + (byteZ c - 48))
    else None
  end.

Definition ParseInt (s : gostring) : option Z :=
  match s with
  | [] => None
  | c :: t =>
    let '(neg, digits) :=
      if decide (c = "+"%char) then (false, t)
      else if decide (c = "-"%char) then (true, t)
      else (false, s) in
    if isEmpty digits then None
    else
      match parseDigits digits 0 with
      | Some un =>
        if neg then (if un <=? 2 ^ 63 then Some (- un) else None)
        else (if un <? 2 ^ 63 then Some un else None)
      | None => None
      end
  end.

Definition quoteOpen : gostring := ["226"; "128"; "156"]%char.
Definition quoteClose : gostring := ["226"; "128"; "157"]%char.

(** The callback that [discordIRCFormat] passes to [formatting.Walk]: the
    text it writes to the builder for node [n]. *)
Definition visit (env : Env) (guildID : gostring) (n : Node) (entering : bool)
    : gostring :=
  match n with
  | TextNode content => if entering then content else []
  | BlockQuoteNode _ => if entering then quoteOpen else quoteClose
  | CodeNode language content =>
    if entering then
      fMonospace :: bs "`" ++
      (if negb (isEmpty language) then language ++ bs " " else []) ++
      content ++ bs "`" ++ [fMonospace]
    else []
  | SpoilerNode _ =>
    if entering then fReverse :: bs "||" else bs "||" ++ [fReverse]
  | URLNode url => if entering then url else []
  | EmojiNode text => if entering then bs ":" ++ text ++ bs ":" else []
  | ChannelMentionNode id =>
    if entering then
      match stateChannel env id with
      | Some name => bs "#" ++ name
      | None => bs "#invalid-channel"
      end
    else []
  | RoleMentionNode id =>
    if entering then
      match stateRole env guildID id with
      | Some name => bs "@" ++ name
      | None => bs "@invalid-role"
      end
    else []
  | UserMentionNode id =>
    if entering then
      match stateMember env guildID id with
      | Some nick => bs "@" ++ nick
      | None => bs "@invalid-user"
      end
    else []
  | SpecialMentionNode mention => if entering then bs "@" ++ mention else []
  | TimestampNode stamp format =>
    if entering then
      match ParseInt stamp with
      | None => bs "<invalid-timestamp>"
      | Some unix =>
        if decide (format = bs "t") then timeFormat env unix (bs "15:04 MST")
        else if decide (format = bs "T") then timeFormat env unix (bs "15:04:05 MST")
        else if decide (format = bs "d") then timeFormat env unix (bs "2006/01/02 MST")
        else if decide (format = bs "D") then
          timeFormat env unix (bs "January 02, 2006 MST")
        else if decide (format = bs "f") then
          timeFormat env unix (bs "January 02, 2006 at 15:04 MST")
        else if decide (format = bs "F") then
          timeFormat env unix (bs "Monday, January 02, 2006 at 15:04 MST")
        else if decide (format = bs "R") then
          let d := timeSince env unix in
          if 0 <? d then durationString env d ++ bs " ago"
          else bs "in " ++ durationString env d
        else bs "<invalid-timestamp>"
      end
    else []
  | BoldNode _ => [fBold]
  | UnderlineNode _ => [fUnderline]
  | ItalicsNode _ => [fItalics]
  | StrikethroughNode _ => [fStrikethrough]
  end.

(** Modelled from the spec: [formatting.Walk] of the package
    [discord-formatting], which is not part of the repository.  The traversal
    is pre-order; a container is visited on entering and on leaving, with its
    children in between, a leaf is visited once. *)
Fixpoint Walk (f : Node -> bool -> gostring) (n : Node) : gostring :=
  match n with
  | BlockQuoteNode children | SpoilerNode children | BoldNode children
  | UnderlineNode children | ItalicsNode children
  | StrikethroughNode children =>
    f n true ++ concat (map (Walk f) children) ++ f n false
  | _ => f n true
  end.

Definition WalkAll (f : Node -> bool -> gostring) (ast : list Node) : gostring :=
  concat (map (Walk f) ast).

(** [discordIRCFormat]; the document that the parser returns is the sequence
    of its top-level nodes. *)
Definition discordIRCFormat (env : Env) (guildID m : gostring) : gostring :=
  WalkAll (visit env guildID) (discordParser_Parse env m).

(** [ircWrite]: nothing is written without a live client, nor a [REDACT]
    when the capability was not negotiated. *)
Definition ircWrite (m : irc.Message) : M unit :=
  w ← getWorld;
  match ircClient w with
  | None => mret tt
  | Some c =>
    if bool_decide (irc.Command m = bs "REDACT") &&
       negb (irc.CapEnabled c (bs "draft/message-redaction"))
    then mret tt
    else clientWrite m
  end.

(** The verbs [%06X] and [%02d] of [fmt.Sprintf] on an [int]. *)
Definition digitChar (d : Z) : ascii :=
  if d <? 10 then zbyte (48 + d) else zbyte (55 + d).

Fixpoint digitsOf (fuel : nat) (base n : Z) (acc : gostring) : gostring :=
  match fuel with
  | O => acc
  | S fuel' =>
    let acc' := digitChar (n mod base) :: acc in
    if n / base =? 0 then acc' else digitsOf fuel' base (n / base) acc'
  end.

Definition formatInt (base : Z) (width : nat) (n : Z) : gostring :=
  let digits (m : Z) := digitsOf (S (Z.to_nat (Z.log2 m))) base m [] in
  if n <? 0 then
    "-"%char :: (let ds := digits (- n) in
                 replicate (width - 1 - length ds) "0"%char ++ ds)
  else let ds := digits n in replicate (width - length ds) "0"%char ++ ds.

(** [fnv.New32()], [Write], [Sum32]: the 32-bit FNV-1 hash. *)
Definition fnv32 (s : gostring) : Z :=
  fold_left (fun h b => Z.lxor ((h * 16777619) mod 2 ^ 32) (byteZ b)) s 2166136261.

(** The colour code that precedes the sender name (lines 681-693); [int] is
    taken to be 64 bits wide, so that [int(h.Sum32())] is not negative. *)
Definition senderColor (env : Env) (m : discordgo.MessageCreate) : gostring :=
  let colorCode := stateMessageColor env m in
  let colorCode :=
    if colorCode =? 0 then discordgo.AuthorAccentColor m else colorCode in
  if negb (colorCode =? 0) then fColorHex :: formatInt 16 6 colorCode
  else
    let h := fnv32 (discordgo.AuthorUsername m) in
    let colorCode :=
      default 0 (validColors !! Z.to_nat (h mod Z.of_nat (length validColors))) in
    fColor :: formatInt 10 2 colorCode.

(** The name shown for the author (lines 694-697), once [m.Member] has been
    dereferenced. *)
Definition displayName (memberNick username : gostring) : gostring :=
  if isEmpty memberNick then username else memberNick.

(** Lines 698-701: a zero width space after the first rune of a name longer
    than one byte. *)
Definition senderNick (nick : gostring) : gostring :=
  if (1 <? length nick)%nat then
    let '(r, size) := DecodeRuneInString nick in
    stringOfRunes [r; 0x200B] ++ drop size nick
  else nick.

(** Line 702. *)
Definition senderPrefix (color nick : gostring) : gostring :=
  bs "<" ++ color ++ nick ++ fReset :: bs "> ".

(** The text parameter of the [PRIVMSG] that carries the message content
    (lines 705-706 and 714). *)
Definition contentText (prefix body : gostring) : gostring :=
  prefix ++ replacerNewline_Replace body.

(** [discordMessage]. *)
Definition discordMessage (env : Env) (m : discordgo.MessageCreate) : M unit :=
  if decide (discordgo.AuthorID m = stateUserID env) then mret tt
  else
    match List.find (fun e => bool_decide (fst e = discordgo.ChannelID m))
                    (cfg_Channels env) with
    | None => mret tt
    | Some (_, ic) =>
      w ← getWorld;
      let replyID := discordReplyID (idDiscordIRC w) (discordgo.MessageReference m) in
      let color := senderColor env m in
      memberNick ← match discordgo.Member m with
                   | Some nick => mret nick
                   | None => panic
                   end;
      let nick := senderNick (displayName memberNick (discordgo.AuthorUsername m)) in
      let prefix := senderPrefix color nick in
      let tags : gmap gostring gostring :=
        <[bs "+discord" := discordgo.ID m]> (<[bs "+draft/reply" := replyID]> ∅) in
      (if (0 <? length (discordgo.Content m))%nat then
         let body := discordIRCFormat env (discordgo.GuildID m) (discordgo.Content m) in
         ircWrite (irc.mkMessage tags [] (bs "PRIVMSG") [ic; contentText prefix body])
       else mret tt) ;;
      forEach (discordgo.Attachments m) (fun url =>
        ircWrite (irc.mkMessage tags [] (bs "PRIVMSG") [ic; prefix ++ url]))
    end.

(** [discordDelete]: a deletion on Discord redacts every IRC message
    recorded for the Discord message.  [author] is [m.Author], which Discord
    may leave out ([None] for [nil]). *)
Definition discordDelete (env : Env) (author : option gostring)
    (channelID id : gostring) : M unit :=
  if bool_decide (author = Some (stateUserID env)) then mret tt
  else
    match List.find (fun e => bool_decide (fst e = channelID)) (cfg_Channels env) with
    | None => mret tt
    | Some (_, ic) =>
      w ← getWorld;
      forEach (idDiscordIRC w !!! id) (fun ircID =>
        ircWrite (outMessage (bs "REDACT") [ic; ircID]))
    end.

(** [discordReact]: a reaction on Discord is forwarded as a [TAGMSG] that
    replies to the first IRC message recorded for the Discord message. *)
Definition discordReact (env : Env) (userID channelID messageID emojiName : gostring)
    : M unit :=
  if decide (userID = stateUserID env) then mret tt
  else
    match List.find (fun e => bool_decide (fst e = channelID)) (cfg_Channels env) with
    | None => mret tt
    | Some (_, ic) =>
      if isEmpty emojiName then mret tt
      else
        w ← getWorld;
        let ids := idDiscordIRC w !!! messageID in
        if (0 <? length ids)%nat then
          let replyID := default [] (ids !! 0%nat) in
          ircWrite (irc.mkMessage
                      (<[bs "+draft/react" := emojiName]>
                         (<[bs "+draft/reply" := replyID]> ∅))
                      [] (bs "TAGMSG") [ic])
        else mret tt
    end.

(** ** Notions used to state the properties *)

(** The markers that precede a non-empty text written in style [n] after a
    run in style [p] (lines 248-280): nothing when the styles agree. *)
Definition transition (p n : ircStyle) : gostring :=
  if style_eqb p n then [] else closeMarkers p ++ zwsp ++ openMarkers n.

(** The states that the loop of [discordFormat] goes through on input [msg]:
    [fmtTrace msg n] is the state after [n] iterations, or the final state
    when the loop has ended before. *)
Definition fmtTrace (msg : gostring) (n : nat) : fmtState :=
  fmtLoop n (msg ++ [fReset]) fmtInit.

(** The pending style once the [switch] has read the byte [c]
    (lines 196-205). *)
Definition styleAfter (c : ascii) (next : ircStyle) : ircStyle :=
  if decide (c = fBold) then
    mkStyle (italics next) true (underline next) (strikethrough next)
  else if decide (c = fItalics) then
    mkStyle true (bold next) (underline next) (strikethrough next)
  else if decide (c = fUnderline) then
    mkStyle (italics next) (bold next) true (strikethrough next)
  else if decide (c = fStrikethrough) then
    mkStyle (italics next) (bold next) (underline next) true
  else if decide (c = fReset) then noStyle
  else next.

(** The placeholder that the callback writes for a node it cannot resolve: a
    channel, role or user mention that the state does not know, a timestamp
    whose epoch does not parse or whose format code is not one of the seven
    known ones.  [None] for every other node. *)
Definition placeholder (env : Env) (guildID : gostring) (n : Node)
    : option gostring :=
  match n with
  | ChannelMentionNode id =>
    match stateChannel env id with
    | None => Some (bs "#invalid-channel")
    | Some _ => None
    end
  | RoleMentionNode id =>
    match stateRole env guildID id with
    | None => Some (bs "@invalid-role")
    | Some _ => None
    end
  | UserMentionNode id =>
    match stateMember env guildID id with
    | None => Some (bs "@invalid-user")
    | Some _ => None
    end
  | TimestampNode stamp format =>
    match ParseInt stamp with
    | None => Some (bs "<invalid-timestamp>")
    | Some _ =>
      if bool_decide (format ∈ [bs "t"; bs "T"; bs "d"; bs "D"; bs "f"; bs "F"; bs "R"])
      then None else Some (bs "<invalid-timestamp>")
    end
  | _ => None
  end.

(** The tree in which every node that cannot be resolved is replaced by a
    text node that holds its placeholder. *)
Fixpoint degrade (env : Env) (guildID : gostring) (n : Node) : Node :=
  match placeholder env guildID n with
  | Some text => TextNode text
  | None =>
    match n with
    | BlockQuoteNode children => BlockQuoteNode (map (degrade env guildID) children)
    | SpoilerNode children => SpoilerNode (map (degrade env guildID) children)
    | BoldNode children => BoldNode (map (degrade env guildID) children)
    | UnderlineNode children => UnderlineNode (map (degrade env guildID) children)
    | ItalicsNode children => ItalicsNode (map (degrade env guildID) children)
    | StrikethroughNode children =>
      StrikethroughNode (map (degrade env guildID) children)
    | _ => n
    end
  end.



(** ** A configuration for the examples

    One Discord channel [D1] bridged to the IRC channel [#chan]; Discord
    answers every send with the ID [newID]; no mention resolves; the parser
    returns its input as one text node. *)
Definition demoEnv (newID : gostring) : Env :=
  mkEnv [(bs "D1", bs "#chan")] (fun _ => Some newID) (fun _ msg => msg)
        (bs "bridge-id") (fun _ => None) (fun _ _ => None) (fun _ _ => None)
        (fun _ => 0) (fun m => [TextNode m]) (fun _ layout => layout)
        (fun _ => 0) (fun _ => []).

Definition demoClient : irc.Client := irc.mkClient (bs "bridge") (fun _ => true).

(** The bridge once the IRC side is ready, with given tables. *)
Definition readyWorld (byIRC byDiscord : gmap gostring (list gostring)) : World :=
  mkWorld byIRC byDiscord true (Some demoClient) [] [].

(** A [PRIVMSG] from [alice] to [#chan] with the given tags and body. *)
Definition demoPrivmsg (tags : gmap gostring gostring) (body : gostring)
    : irc.Message :=
  irc.mkMessage tags (bs "alice") (bs "PRIVMSG") [bs "#chan"; body].

(** The children of a node; a leaf has none. *)
Definition childrenOf (n : Node) : list Node :=
  match n with
  | BlockQuoteNode children | SpoilerNode children | BoldNode children
  | UnderlineNode children | ItalicsNode children
  | StrikethroughNode children => children
  | _ => []
  end.

(** The invariant of the loop of [discordFormat] on a text that ends with
    the reset marker: the scan has not passed the last byte, or it has just
    read it and no run is open; and inside a raw span the closing backtick
    is still ahead. *)
Definition closedInv (msg : gostring) (st : fmtState) : Prop :=
  ((pos st < length msg)%nat \/
   (pos st = length msg /\ prevStyle st = noStyle)) /\
  (raw st = true ->
   exists j, (pos st <= j)%nat /\ msg !! j = Some "`"%char).


(** ** A one-pass reading of [discordFormat]

    [scan] follows the loop of [discordFormat] on the text that is still to
    be read instead of on an index into the whole text: [skip] is the number
    of bytes that a colour case still has to pass over, [urlLeft] the number
    of bytes up to the end of the last URL found ([urlEnd - i], or [0] when
    the scan is beyond it).  The [switch] is the one of the source, applied
    to the remaining text at index [0].  Lemma [discordFormat_scan] shows
    that the loop computes [scan]. *)
Fixpoint scan (skip : nat) (prev next : ircStyle) (raw0 : bool) (urlLeft : nat)
    (s : gostring) : gostring :=
  match s with
  | [] => []
  | c :: t =>
    match skip with
    | S k => scan k prev next raw0 (urlLeft - 1) t
    | O =>
      if raw0 && negb (bool_decide (c = "`"%char)) then
        c :: scan 0 prev next raw0 (urlLeft - 1) t
      else
        let urlLeft' :=
          if (urlLeft <=? 0)%nat then
            match patternURL_FindStringIndex s with
            | Some e => e
            | None => urlLeft
            end
          else urlLeft in
        match switchByte s 0 c next raw0 urlLeft' with
        | Continue k => scan k prev next raw0 (urlLeft' - 1) t
        | Fall next' raw' write =>
          if isEmpty write && negb (isEmpty t) then
            scan 0 prev next' raw' (urlLeft' - 1) t
          else if style_eqb prev next' then
            write ++ scan 0 prev next' raw' (urlLeft' - 1) t
          else if isEmpty write then
            closeMarkers prev ++ scan 0 noStyle next' raw' (urlLeft' - 1) t
          else
            closeMarkers prev ++ zwsp ++ openMarkers next' ++ write ++
            scan 0 next' next' raw' (urlLeft' - 1) t
        end
    end
  end.

(** The bytes that [discordFormat] copies as they are wherever they stand:
    no formatting byte, no backtick, none of the four escaped characters. *)
Definition plainByte (c : ascii) : Prop :=
  c ∉ [fBold; fItalics; fUnderline; fStrikethrough; fReset; fMonospace;
       fReverse; fColor; fColorHex; "`"; "\"; "*"; "_"; "~"]%char.

(** The bytes that only change the pending style or are dropped: the four
    style markers, the reset marker, and the monospace and reverse toggles. *)
Definition styleByte (c : ascii) : Prop :=
  c ∈ [fBold; fItalics; fUnderline; fStrikethrough; fReset; fMonospace; fReverse].

(** The pending style after a run of style bytes. *)
Definition styleOf (ms : gostring) (next : ircStyle) : ircStyle :=
  fold_left (fun st c => styleAfter c st) ms next.

(** A text cut into runs: each run is a group of style bytes followed by
    the text they apply to. *)
Definition flattenRuns (runs : list (gostring * gostring)) : gostring :=
  concat (map (fun r => fst r ++ snd r) runs).

(** What is written for a sequence of runs when the last run written had the
    style [prev] and the pending style is [next]: before each run the
    markers that lead from the style written last to the style of the run,
    and after the last run the markers that close it. *)
Fixpoint renderRuns (prev next : ircStyle) (runs : list (gostring * gostring))
    : gostring :=
  match runs with
  | [] => closeMarkers prev
  | (ms, s) :: rest =>
    let st := styleOf ms next in
    transition prev st ++ s ++ renderRuns st st rest
  end.

(** A backslash before each backslash, asterisk, underscore and tilde. *)
Definition escapeMeta (s : gostring) : gostring :=
  concat (map (fun c =>
    if bool_decide (c ∈ ["\"; "*"; "_"; "~"]%char) then ["\"%char; c] else [c]) s).

(** ** The remaining handler and helper of the source *)

(** [discordTyping]: somebody else typing in a bridged Discord channel is
    forwarded as a [TAGMSG] with the tag [+typing=active]. *)
Definition discordTyping (env : Env) (userID channelID : gostring) : M unit :=
  if decide (userID = stateUserID env) then mret tt
  else
    match List.find (fun e => bool_decide (fst e = channelID)) (cfg_Channels env) with
    | None => mret tt
    | Some (_, ic) =>
      ircWrite (irc.mkMessage (<[bs "+typing" := bs "active"]> ∅) [] (bs "TAGMSG") [ic])
    end.

(** [s[a:b]]; [None] stands for the panic on bounds out of range. *)
Definition slice (s : gostring) (a b : nat) : option gostring :=
  if ((a <=? b) && (b <=? length s))%nat then Some (take (b - a) (drop a s))
  else None.

(** The loop of [regexReplaceAll] (lines 799-806): the replacement of each
    match, followed by the text up to the next match or to the end. *)
Fixpoint replaceLoop (s : gostring) (f : list nat -> gostring)
    (matches : list (list nat)) : option gostring :=
  match matches with
  | [] => Some []
  | m :: rest =>
    e ← m !! 1%nat;
    between ← match rest with
              | m' :: _ => b ← m' !! 0%nat; slice s e b
              | [] => slice s e (length s)
              end;
    tail ← replaceLoop s f rest;
    Some (f m ++ between ++ tail)
  end.

(** [regexReplaceAll], given the list [matches] that
    [r.FindAllStringSubmatchIndex(s, -1)] has returned: each match is the
    slice of its indices, the bounds of the whole match first. *)
Definition regexReplaceAll (matches : list (list nat)) (s : gostring)
    (f : list nat -> gostring) : option gostring :=
  match matches with
  | [] => Some s
  | m0 :: _ =>
    b ← m0 !! 0%nat;
    pre ← slice s 0 b;
    rest ← replaceLoop s f matches;
    Some (pre ++ rest)
  end.

(** ** Further notions used to state the properties *)

(** The world once [out] has been written to the IRC connection. *)
Definition wrote (w : World) (out : list irc.Message) : World :=
  mkWorld (idIRCDiscord w) (idDiscordIRC w) (ircReady w) (ircClient w)
          (ircOut w ++ out) (discordOut w).

(** The world once [calls] have been made on the Discord session. *)
Definition called (w : World) (calls : list discordgo.Call) : World :=
  mkWorld (idIRCDiscord w) (idDiscordIRC w) (ircReady w) (ircClient w)
          (ircOut w) (discordOut w ++ calls).


(** What the regexp package guarantees of the matches it returns for a text
    [s], from the byte offset [from] on: every match starts with its two
    bounds, which lie in the text in this order, and the matches follow one
    another without overlap. *)
Fixpoint matchesFrom (s : gostring) (from : nat) (matches : list (list nat))
    : Prop :=
  match matches with
  | [] => True
  | m :: rest =>
    exists b e, m !! 0%nat = Some b /\ m !! 1%nat = Some e /\
                (from <= b <= e)%nat /\ (e <= length s)%nat /\
                matchesFrom s e rest
  end.


(** The table [idIRCDiscord] of [w'] extends the one of [w]: under every
    key, the list of [w] is a prefix of the list of [w']. *)
Definition extends (w w' : World) : Prop :=
  forall k, (idIRCDiscord w !!! k) `prefix_of` (idIRCDiscord w' !!! k).

(** A computation that, when it returns, has only added to [idIRCDiscord]. *)
Definition keepsRecords {A : Type} (h : M A) : Prop :=
  forall w, match h w with
            | Done _ w' => extends w w'
            | Panicked => True
            end.
(** * Properties *)

(** ** The control-code parser *)

Lemma style_eqb_eq (a b : ircStyle) : style_eqb a b = true <-> a = b.
Proof.
  destruct a as [a1 a2 a3 a4], b as [b1 b2 b3 b4]; unfold style_eqb; simpl.
  split.
  - intros H. repeat (apply andb_prop in H; destruct H as [H ?]).
    repeat match goal with
           | E : Bool.eqb _ _ = true |- _ => apply Bool.eqb_prop in E
           end.
    congruence.
  - intros [= -> -> -> ->]. by rewrite !Bool.eqb_reflx.
Qed.

Lemma colorSkip_ge (msg : gostring) (i : nat) : (i < colorSkip msg i)%nat.
Proof.
  unfold colorSkip.
  repeat match goal with |- context [if ?b then _ else _] => destruct b end; lia.
Qed.

(** Every iteration advances the index. *)
Lemma iter_pos (msg : gostring) (st : fmtState) :
  (pos st < length msg)%nat -> (pos st < pos (iter msg st))%nat.
Proof.
  intros Hlt. unfold iter.
  destruct (msg !! pos st) as [c|] eqn:Hc.
  2: { apply lookup_ge_None in Hc. lia. }
  destruct (raw st && negb (bool_decide (c = "`"%char))); simpl; [lia|].
  destruct (switchByte _ _ _ _ _ _) as [i'|next' raw' write] eqn:Hsw.
  - simpl. unfold switchByte in Hsw.
    pose proof (colorSkip_ge msg (pos st)).
    repeat case_decide; try discriminate;
      try (destruct (negb (isDigit msg (pos st + 1))));
      try (destruct (urlEnd st <=? pos st)%nat);
      repeat match type of Hsw with
             | context [if ?b then _ else _] => destruct b
             end;
      try discriminate; injection Hsw as <-; lia.
  - repeat match goal with |- context [if ?b then _ else _] => destruct b end;
      simpl; lia.
Qed.

(** The fuel of [discordFormat] is enough: the loop ends because its guard
    fails, with the index at or beyond the end of the text. *)
Lemma fmtLoop_done (fuel : nat) (msg : gostring) (st : fmtState) :
  (length msg - pos st <= fuel)%nat ->
  (length msg <= pos (fmtLoop fuel msg st))%nat.
Proof.
  revert st. induction fuel as [|fuel IH]; intros st Hf; simpl.
  - lia.
  - destruct (pos st <? length msg)%nat eqn:Hlt.
    + apply Nat.ltb_lt in Hlt. apply IH.
      pose proof (iter_pos msg st Hlt). lia.
    + apply Nat.ltb_ge in Hlt. lia.
Qed.

Lemma discordFormatRun_done (msg : gostring) :
  (length (msg ++ [fReset]) <= pos (discordFormatRun msg))%nat.
Proof. unfold discordFormatRun. apply fmtLoop_done. simpl. lia. Qed.

(** What the [switch] does to the pending style: a style marker sets its
    attribute, the reset marker clears all four, any other byte leaves the
    style as it is. *)
Lemma switchByte_style (msg : gostring) (i : nat) (c : ascii)
    (next : ircStyle) (raw0 : bool) (u : nat) :
  match switchByte msg i c next raw0 u with
  | Continue _ => styleAfter c next = next
  | Fall next' _ _ => next' = styleAfter c next
  end.
Proof.
  unfold switchByte, styleAfter.
  repeat case_decide; subst; try done;
    repeat match goal with
           | |- context [if ?b then _ else _] => destruct b
           | |- context [match ?o with Some _ => _ | None => _ end] => destruct o
           end;
    try done; naive_solver.
Qed.

(** The pending style after one iteration: untouched inside a raw span,
    [styleAfter] otherwise. *)
Lemma iter_nextStyle (msg : gostring) (st : fmtState) (c : ascii) :
  msg !! pos st = Some c ->
  nextStyle (iter msg st) =
    if raw st && negb (bool_decide (c = "`"%char)) then nextStyle st
    else styleAfter c (nextStyle st).
Proof.
  intros Hc. unfold iter. rewrite Hc.
  destruct (raw st && negb (bool_decide (c = "`"%char))); simpl; [done|].
  match goal with
  | |- context [switchByte ?a ?b ?c ?d ?e ?f] =>
    pose proof (switchByte_style a b c d e f) as Hsw;
    destruct (switchByte a b c d e f)
  end; simpl; [done|].
  repeat match goal with |- context [if ?b then _ else _] => destruct b end;
    simpl; exact Hsw.
Qed.

(** The effect of one iteration on the pending style, in any state: a style
    marker read outside a raw span sets its attribute, and an attribute that
    is set stays set unless the byte read is the reset marker. *)
Lemma iter_style_step (msg : gostring) (st : fmtState) (c : ascii) :
  msg !! pos st = Some c ->
  let next := nextStyle st in
  let next' := nextStyle (iter msg st) in
  (raw st = false ->
     (c = fBold -> bold next' = true) /\
     (c = fItalics -> italics next' = true) /\
     (c = fUnderline -> underline next' = true) /\
     (c = fStrikethrough -> strikethrough next' = true)) /\
  (c <> fReset ->
     (bold next = true -> bold next' = true) /\
     (italics next = true -> italics next' = true) /\
     (underline next = true -> underline next' = true) /\
     (strikethrough next = true -> strikethrough next' = true)).
Proof.
  intros Hc next next'. unfold next'. rewrite (iter_nextStyle msg st c Hc).
  split.
  - intros ->. simpl. unfold styleAfter.
    split; [|split; [|split]]; intros ->; reflexivity.
  - intros Hreset.
    destruct (raw st && negb (bool_decide (c = "`"%char))); [tauto|].
    unfold styleAfter. repeat case_decide; try done; simpl; tauto.
Qed.

(** One more iteration of the loop, from the state reached so far. *)
Lemma fmtLoop_S (n : nat) (msg : gostring) (st : fmtState) :
  fmtLoop (S n) msg st =
    let s := fmtLoop n msg st in
    if (pos s <? length msg)%nat then iter msg s else s.
Proof.
  revert st. induction n as [|n IH]; intros st.
  - simpl. destruct (pos st <? length msg)%nat; reflexivity.
  - change (fmtLoop (S (S n)) msg st) with
      (if (pos st <? length msg)%nat then fmtLoop (S n) msg (iter msg st) else st).
    destruct (pos st <? length msg)%nat eqn:Hlt.
    + rewrite IH. simpl. rewrite Hlt. reflexivity.
    + simpl. rewrite Hlt. simpl. rewrite Hlt. reflexivity.
Qed.

Lemma fmtTrace_S (msg : gostring) (n : nat) (c : ascii) :
  (msg ++ [fReset]) !! pos (fmtTrace msg n) = Some c ->
  fmtTrace msg (S n) = iter (msg ++ [fReset]) (fmtTrace msg n).
Proof.
  intros Hc. unfold fmtTrace. rewrite fmtLoop_S. simpl.
  apply lookup_lt_Some in Hc. apply Nat.ltb_lt in Hc.
  unfold fmtTrace in Hc. by rewrite Hc.
Qed.

(** C8. On every input, whenever the scan of [discordFormat] reads a style
    marker (bold, italics, underline, strikethrough) outside a raw span, the
    attribute is set in [nextStyle] after that iteration, whatever it was
    before: a repeated marker does not toggle it off.  And an attribute that
    is set in [nextStyle] is still set after an iteration unless the byte
    read in it is the reset marker (the one appended to the input
    included). *)
Theorem style_marker_sets_never_clears (msg : gostring) (n : nat) (c : ascii) :
  (msg ++ [fReset]) !! pos (fmtTrace msg n) = Some c ->
  let next := nextStyle (fmtTrace msg n) in
  let next' := nextStyle (fmtTrace msg (S n)) in
  (raw (fmtTrace msg n) = false ->
     (c = fBold -> bold next' = true) /\
     (c = fItalics -> italics next' = true) /\
     (c = fUnderline -> underline next' = true) /\
     (c = fStrikethrough -> strikethrough next' = true)) /\
  (c <> fReset ->
     (bold next = true -> bold next' = true) /\
     (italics next = true -> italics next' = true) /\
     (underline next = true -> underline next' = true) /\
     (strikethrough next = true -> strikethrough next' = true)).
Proof.
  intros Hc. simpl. rewrite (fmtTrace_S msg n c Hc).
  exact (iter_style_step (msg ++ [fReset]) (fmtTrace msg n) c Hc).
Qed.

(** The input bold, a, bold, b: the second bold marker is read at the third
    iteration, with bold already pending. *)
Lemma style_marker_sets_never_clears_witness :
  let msg := [fBold; "a"; fBold; "b"]%char in
  (msg ++ [fReset]) !! pos (fmtTrace msg 2) = Some fBold /\
  bold (nextStyle (fmtTrace msg 2)) = true /\
  bold (nextStyle (fmtTrace msg 3)) = true.
Proof.
  split; [reflexivity|]. split; [reflexivity|].
  destruct (style_marker_sets_never_clears [fBold; "a"; fBold; "b"]%char 2 fBold)
    as [Hset _]; [reflexivity|].
  apply Hset; reflexivity.
Defined.

(** Once the scan is past the end of the text, further iterations change
    nothing. *)
Lemma fmtLoop_past (n : nat) (msg : gostring) (st : fmtState) :
  (length msg <= pos st)%nat -> fmtLoop n msg st = st.
Proof.
  intros H. destruct n as [|n]; [reflexivity|]. cbn [fmtLoop].
  by destruct (Nat.ltb_spec (pos st) (length msg)); [lia|].
Qed.

Lemma fmtLoop_add (a b : nat) (msg : gostring) (st : fmtState) :
  fmtLoop (a + b) msg st = fmtLoop b msg (fmtLoop a msg st).
Proof.
  revert st. induction a as [|a IH]; intros st; [reflexivity|].
  cbn [Nat.add fmtLoop].
  destruct (Nat.ltb_spec (pos st) (length msg)); [apply IH|].
  by rewrite fmtLoop_past.
Qed.

Lemma fmtTrace_end (msg : gostring) (k n : nat) :
  (length (msg ++ [fReset]) <= pos (fmtTrace msg k))%nat -> (k <= n)%nat ->
  fmtTrace msg n = fmtTrace msg k.
Proof.
  intros Hend Hle. unfold fmtTrace in *.
  replace n with (k + (n - k))%nat by lia.
  rewrite fmtLoop_add. by apply fmtLoop_past.
Qed.

(** The statement without its condition does not hold: a bold marker inside
    a backtick span is copied as text, and a bold marker among the six bytes
    after a hex colour marker is passed over; in both texts bold is pending
    at no moment of the scan. *)
Lemma style_marker_not_always_set :
  let spanned := "`"%char :: fBold :: bs "x`y" in
  let skipped := fColorHex :: fBold :: bs "abcdef" in
  (fBold ∈ spanned /\ fBold ∈ skipped) /\
  (forall n, bold (nextStyle (fmtTrace spanned n)) = false) /\
  (forall n, bold (nextStyle (fmtTrace skipped n)) = false) /\
  discordFormat spanned = spanned /\
  discordFormat skipped = bs "f".
Proof.
  intros spanned skipped.
  assert (Hcases : forall msg k,
            (length (msg ++ [fReset]) <= pos (fmtTrace msg k))%nat ->
            (forall j, (j <= k)%nat -> bold (nextStyle (fmtTrace msg j)) = false) ->
            forall n, bold (nextStyle (fmtTrace msg n)) = false).
  { intros msg k Hend Hsmall n. destruct (le_lt_dec k n) as [Hle|Hlt].
    - rewrite (fmtTrace_end msg k n Hend Hle). by apply Hsmall.
    - apply Hsmall. lia. }
  split; [split; apply (bool_decide_unpack _); vm_compute; exact I|].
  split; [|split; [|split; vm_compute; reflexivity]].
  - apply (Hcases spanned 6%nat); [apply Nat.leb_le; vm_compute; reflexivity|].
    intros j Hj. do 7 (destruct j as [|j]; [vm_compute; reflexivity|]). lia.
  - apply (Hcases skipped 9%nat); [apply Nat.leb_le; vm_compute; reflexivity|].
    intros j Hj. do 10 (destruct j as [|j]; [vm_compute; reflexivity|]). lia.
Qed.

Lemma IndexByte_None (s : gostring) (c : ascii) :
  IndexByte s c = None <-> c ∉ s.
Proof.
  induction s as [|b s IH]; simpl.
  - split; [intros _; apply not_elem_of_nil | done].
  - case_decide as Hb.
    + subst. split; [done | intros H; exfalso; apply H; left].
    + rewrite fmap_None, IH, not_elem_of_cons.
      split; [intros ?; split; [congruence | done] | by intros [_ ?]].
Qed.

Lemma IndexByte_Some_elem (s : gostring) (c : ascii) (k : nat) :
  IndexByte s c = Some k -> c ∈ s.
Proof.
  intros H. destruct (decide (c ∈ s)) as [|Hn]; [done|].
  apply IndexByte_None in Hn. congruence.
Qed.

(** [IndexByte] gives [0] exactly when the text starts with the byte. *)
Lemma IndexByte_zero (s : gostring) (c : ascii) :
  IndexByte s c = Some 0%nat <-> s !! 0%nat = Some c.
Proof.
  destruct s as [|b s]; simpl; [done|].
  case_decide as Hb.
  - subst. done.
  - split; [|congruence]. destruct (IndexByte s c); simpl; discriminate.
Qed.

Lemma transition_no_backslash (p n : ircStyle) : "\"%char ∉ transition p n.
Proof.
  unfold transition, closeMarkers, openMarkers, zwsp.
  destruct p as [[] [] [] []], n as [[] [] [] []];
    apply (bool_decide_unpack _); vm_compute; exact I.
Qed.

(** An iteration that reads a backtick outside a raw span: raw mode is
    entered when [IndexByte] finds a later backtick at a positive offset, and
    the backtick is written as it is, after the markers of a style change. *)
Lemma iter_backtick (msg : gostring) (st : fmtState) :
  msg !! pos st = Some "`"%char -> raw st = false ->
  raw (iter msg st) =
    match IndexByte (drop (pos st + 1) msg) "`"%char with
    | Some k => (0 <? k)%nat
    | None => false
    end /\
  sb (iter msg st) = sb st ++ transition (prevStyle st) (nextStyle st) ++ ["`"%char].
Proof.
  intros Hc Hraw. unfold iter. rewrite Hc, Hraw. simpl.
  unfold transition.
  destruct (style_eqb (prevStyle st) (nextStyle st)); simpl;
    (split; [destruct (IndexByte _ _) as [[|k]|]; reflexivity|]);
    [reflexivity | unfold zwsp; by rewrite <- !app_assoc].
Qed.

(** C3, as amended.  At a backtick read outside a raw span and not
    immediately followed by another backtick, [discordFormat] enters raw mode
    if and only if a backtick occurs later in the text.  A backtick with none
    after it does not start a raw span and is written as the backtick byte
    alone, after the markers of a pending style change, which hold no
    backslash: it is not escaped. *)
Theorem backtick_raw_span (msg : gostring) (st : fmtState) :
  msg !! pos st = Some "`"%char -> raw st = false ->
  (msg !! (pos st + 1)%nat <> Some "`"%char ->
   (raw (iter msg st) = true <-> "`"%char ∈ drop (pos st + 1) msg)) /\
  ("`"%char ∉ drop (pos st + 1) msg ->
   raw (iter msg st) = false /\
   sb (iter msg st) =
     sb st ++ transition (prevStyle st) (nextStyle st) ++ ["`"%char] /\
   "\"%char ∉ transition (prevStyle st) (nextStyle st)).
Proof.
  intros Hc Hraw. destruct (iter_backtick msg st Hc Hraw) as [Hr Hsb].
  split.
  - intros Hnext. rewrite Hr.
    destruct (IndexByte (drop (pos st + 1) msg) "`"%char) as [k|] eqn:Hk.
    + split; [intros _; by eapply IndexByte_Some_elem|]. intros _.
      destruct k as [|k]; [|reflexivity].
      apply IndexByte_zero in Hk. rewrite lookup_drop, Nat.add_0_r in Hk. done.
    + apply IndexByte_None in Hk. split; [discriminate | done].
  - intros Hnone. apply IndexByte_None in Hnone. rewrite Hnone in Hr.
    split; [done|]. split; [done | apply transition_no_backslash].
Qed.

(** The text a`b*c`d: the first backtick starts a raw span. *)
Lemma backtick_raw_span_witness :
  let msg := bs "a`b*c`d" ++ [fReset] in
  let st := fmtLoop 1 msg fmtInit in
  msg !! pos st = Some "`"%char /\ raw st = false /\ raw (iter msg st) = true.
Proof.
  split; [reflexivity|]. split; [reflexivity|].
  destruct (backtick_raw_span (bs "a`b*c`d" ++ [fReset])
              (fmtLoop 1 (bs "a`b*c`d" ++ [fReset]) fmtInit)) as [Hiff _];
    [reflexivity | reflexivity |].
  apply Hiff; [discriminate|].
  apply (bool_decide_unpack _). vm_compute. exact I.
Defined.


(** C3, as stated, fails twice.  In the text of two backticks the first one
    has a closing backtick after it (the next byte), and raw mode is not
    entered; and a lone backtick is written without a backslash, while an
    asterisk is written with one. *)
Lemma backtick_claim_fails :
  (let msg := bs "``" ++ [fReset] in
   msg !! pos fmtInit = Some "`"%char /\ raw fmtInit = false /\
   "`"%char ∈ drop (pos fmtInit + 1) msg /\
   raw (iter msg fmtInit) = false) /\
  discordFormat (bs "`") = bs "`" /\
  discordFormat (bs "`") <> bs "\`" /\
  discordFormat (bs "*") = bs "\*".
Proof.
  split; [|split; [|split]].
  - simpl. split; [reflexivity|]. split; [reflexivity|].
    split; [|vm_compute; reflexivity].
    apply (bool_decide_unpack _). vm_compute. exact I.
  - vm_compute. reflexivity.
  - vm_compute. discriminate.
  - vm_compute. reflexivity.
Qed.

(** C4: the failing input bold, a, hex colour marker.  The skip of six bytes
    after the hex colour marker passes over the reset marker appended to the
    input, the loop ends with the bold run still open, and the output holds
    the opening [**] and no closing one. *)
Theorem hex_color_swallows_reset :
  let msg := [fBold; "a"; fColorHex]%char in
  discordFormat msg = zwsp ++ bs "**a" /\
  prevStyle (discordFormatRun msg) = mkStyle false true false false /\
  pos (discordFormatRun msg) = 9%nat.
Proof. vm_compute. repeat split. Qed.

(** C5, as amended: the output for bold hello, reset, space world is the
    boundary marker U+200B, [**hello**], the boundary marker again, and
    [ world]. *)
Theorem discordFormat_hello_world :
  discordFormat (fBold :: bs "hello" ++ fReset :: bs " world") =
  zwsp ++ bs "**hello**" ++ zwsp ++ bs " world".
Proof. vm_compute. reflexivity. Qed.

(** C5, as stated, fails: the output does not start with the asterisks. *)
Lemma discordFormat_hello_world_not_bare :
  discordFormat (fBold :: bs "hello" ++ fReset :: bs " world") <>
  bs "**hello**" ++ zwsp ++ bs " world".
Proof. vm_compute. discriminate. Qed.

(** *** When the appended reset marker is read *)

Lemma IndexByte_Some_lookup (s : gostring) (c : ascii) (k : nat) :
  IndexByte s c = Some k -> s !! k = Some c.
Proof.
  revert k. induction s as [|b s IH]; intros k; simpl; [done|].
  case_decide as Hb.
  - intros [= <-]. by subst.
  - destruct (IndexByte s c) as [k'|]; simpl; [|done].
    intros [= <-]. by apply IH.
Qed.

Lemma isDigit_lookup (msg : gostring) (i : nat) :
  isDigit msg i = true ->
  exists c, msg !! i = Some c /\ c <> fReset.
Proof.
  unfold isDigit. destruct (msg !! i) as [c|]; [|done].
  intros H. exists c. split; [done|]. intros ->. vm_compute in H. done.
Qed.

(** The colour case stops on a digit. *)
Lemma colorSkip_digit (msg : gostring) (i : nat) :
  isDigit msg (i + 1) = true -> isDigit msg (colorSkip msg i) = true.
Proof.
  intros H1. unfold colorSkip.
  destruct (isDigit msg (i + 1 + 1)) eqn:H2;
    match goal with
    | |- context [isDigit msg (?a + 2) && ?b] =>
      destruct (isDigit msg (a + 2)) eqn:H3; destruct b; simpl; try done;
      destruct (isDigit msg (a + 2 + 1)) eqn:H4; done
    end.
Qed.

Ltac not_byte :=
  let E := fresh in
  intros E; subst;
  repeat match goal with H : _ \/ _ |- _ => destruct H end;
  first [discriminate | congruence].

(** The two outcomes of the [switch], by the byte read. *)
Lemma switchByte_Continue (msg : gostring) (i : nat) (c : ascii)
    (next : ircStyle) (raw0 : bool) (u i' : nat) :
  switchByte msg i c next raw0 u = Continue i' ->
  c <> fReset /\ c <> "`"%char /\
  (i' = i \/ (isDigit msg (i + 1) = true /\ i' = colorSkip msg i) \/
   (c = fColorHex /\ i' = (i + 6)%nat)).
Proof.
  unfold switchByte. intros H.
  repeat case_decide; subst; try discriminate;
    repeat match type of H with
           | context [if ?b then _ else _] => destruct b eqn:?
           | context [match ?o with Some _ => _ | None => _ end] => destruct o
           end;
    try discriminate; injection H as <-;
    (split; [not_byte|]; split; [not_byte|]).
  all: try (left; reflexivity).
  - right. left. split; [by apply negb_false_iff|done].
  - right. right. done.
Qed.

Lemma switchByte_Fall (msg : gostring) (i : nat) (c : ascii)
    (next : ircStyle) (raw0 : bool) (u : nat) next' raw' write :
  switchByte msg i c next raw0 u = Fall next' raw' write ->
  (c = fReset -> next' = noStyle /\ write = []) /\
  (raw' = true ->
   (raw0 = true /\ c <> "`"%char) \/
   (c = "`"%char /\ exists k, IndexByte (drop (i + 1) msg) "`"%char = Some k)).
Proof.
  unfold switchByte. intros H.
  repeat case_decide; subst; try discriminate.
  all: repeat match type of H with
              | context [if ?b then _ else _] => destruct b eqn:?
              | context [match ?o with Some _ => _ | None => _ end] =>
                destruct o eqn:?
              end;
       try discriminate; injection H as <- <- <-.
  all: split; [try done; intros ?; by subst|].
  all: intros Hr; destruct raw0; simpl in *; try done.
  all: try (left; split; [done|]; first [discriminate | congruence]).
  all: right; split; [done|]; eauto.
Qed.

(** In the text with the reset marker appended, a byte other than the reset
    marker belongs to the original text. *)
Lemma lookup_before_reset (msg : gostring) (j : nat) (c : ascii) :
  (msg ++ [fReset]) !! j = Some c -> c <> fReset ->
  (j < length msg)%nat /\ c ∈ msg.
Proof.
  intros Hj Hc.
  destruct (decide (j < length msg)%nat) as [Hlt|Hge].
  - split; [done|]. rewrite lookup_app_l in Hj by done.
    by eapply list_elem_of_lookup_2.
  - rewrite lookup_app_r in Hj by lia.
    destruct (j - length msg)%nat; simpl in Hj; [congruence | done].
Qed.

Lemma lookup_last_reset (msg : gostring) (c : ascii) :
  (msg ++ [fReset]) !! length msg = Some c -> c = fReset.
Proof.
  rewrite lookup_app_r by lia. rewrite Nat.sub_diag. simpl. congruence.
Qed.

(** One iteration keeps [closedInv], on a text without hex colour marker. *)
Lemma iter_closedInv (msg : gostring) (st : fmtState) :
  fColorHex ∉ msg ->
  (pos st < length (msg ++ [fReset]))%nat ->
  closedInv (msg ++ [fReset]) st ->
  closedInv (msg ++ [fReset]) (iter (msg ++ [fReset]) st).
Proof.
  intros Hhex Hlt [_ Hraw]. set (msg' := msg ++ [fReset]) in *.
  assert (HL : length msg' = S (length msg)).
  { unfold msg'. rewrite length_app. simpl. lia. }
  unfold closedInv, iter.
  destruct (msg' !! pos st) as [c|] eqn:Hc.
  2: { apply lookup_ge_None in Hc. lia. }
  destruct (raw st && negb (bool_decide (c = "`"%char))) eqn:Hcase.
  { apply andb_prop in Hcase as [Hr Hnb].
    apply negb_true_iff, bool_decide_eq_false in Hnb.
    destruct (Hraw Hr) as (j & Hj & Hbt). simpl.
    assert (j <> pos st) by (intros ->; congruence).
    destruct (lookup_before_reset msg j _ Hbt) as [Hjl _]; [discriminate|].
    split; [left; lia|]. intros _. exists j. split; [lia | done]. }
  assert (Hnotraw : raw st = true -> c = "`"%char).
  { intros Hr. rewrite Hr in Hcase. simpl in Hcase.
    apply negb_false_iff, bool_decide_eq_true in Hcase. done. }
  match goal with
  | |- context [switchByte ?a ?b ?c ?d ?e ?f] =>
    destruct (switchByte a b c d e f) as [i'|next' raw' write] eqn:Hsw
  end.
  - apply switchByte_Continue in Hsw as (Hnr & Hnb & Hi'). simpl.
    destruct (lookup_before_reset msg _ _ Hc Hnr) as [Hpos Hin].
    split.
    + left. destruct Hi' as [->|[[Hd ->]|[-> _]]]; [lia | | done].
      apply colorSkip_digit, isDigit_lookup in Hd as (d & Hd & Hdr).
      destruct (lookup_before_reset msg _ _ Hd Hdr). lia.
    + intros Hr. by apply Hnotraw in Hr.
  - apply switchByte_Fall in Hsw as [Hreset Hraw'].
    assert (Hr' : raw' = true ->
                  exists j, (pos st + 1 <= j)%nat /\ msg' !! j = Some "`"%char).
    { intros Hr. destruct (Hraw' Hr) as [[Hr0 Hnb]|[-> (k & Hk)]].
      - by apply Hnotraw in Hr0.
      - apply IndexByte_Some_lookup in Hk. rewrite lookup_drop in Hk.
        exists (pos st + 1 + k)%nat. split; [lia | done]. }
    destruct (decide (pos st = length msg)) as [Hend|Hmid].
    + rewrite Hend in Hc. apply lookup_last_reset in Hc.
      destruct (Hreset Hc) as [-> ->]. simpl isEmpty.
      replace (pos st + 1 <? length msg')%nat with false
        by (symmetry; apply Nat.ltb_ge; lia).
      simpl andb. cbv iota.
      destruct (style_eqb (prevStyle st) noStyle) eqn:Heq; simpl.
      * apply style_eqb_eq in Heq. split; [right; split; [lia | done] | done].
      * split; [right; split; [lia | done] | done].
    + repeat match goal with
             | |- context [if ?b then _ else _] => destruct b
             end; simpl; (split; [left; lia | done]).
Qed.

Lemma fmtLoop_closedInv (fuel : nat) (msg : gostring) (st : fmtState) :
  fColorHex ∉ msg ->
  closedInv (msg ++ [fReset]) st ->
  closedInv (msg ++ [fReset]) (fmtLoop fuel (msg ++ [fReset]) st).
Proof.
  intros Hhex. revert st. induction fuel as [|fuel IH]; intros st Hinv; simpl;
    [done|].
  destruct (Nat.ltb_spec (pos st) (length (msg ++ [fReset]))); [|done].
  apply IH. by apply iter_closedInv.
Qed.

(** On a text without hex colour marker the appended reset marker is read,
    and [discordFormat] ends with no run open: every marker it has opened
    is closed. *)
Lemma styles_closed_without_hex (msg : gostring) :
  fColorHex ∉ msg -> prevStyle (discordFormatRun msg) = noStyle.
Proof.
  intros Hhex.
  pose proof (discordFormatRun_done msg) as Hdone.
  destruct (fmtLoop_closedInv (length (msg ++ [fReset])) msg fmtInit Hhex)
    as [[Hlt|[_ Hclosed]] _].
  - split; [left; rewrite length_app; simpl; lia | done].
  - unfold discordFormatRun in Hdone. lia.
  - exact Hclosed.
Qed.

(** ** The correlation tables *)

(** The echo path of [ircHandler] appends each ID to the list of the other
    and keeps what both lists held. *)
Lemma recordEcho_appends (msgID discordID : gostring) (w : World) :
  idIRCDiscord (recordEcho msgID discordID w) !!! msgID =
    (idIRCDiscord w !!! msgID) ++ [discordID] /\
  idDiscordIRC (recordEcho msgID discordID w) !!! discordID =
    (idDiscordIRC w !!! discordID) ++ [msgID].
Proof. unfold recordEcho; simpl. by rewrite !lookup_total_insert_eq. Qed.

Lemma recordEcho_other (msgID discordID k : gostring) (w : World) :
  (k <> msgID -> idIRCDiscord (recordEcho msgID discordID w) !!! k = idIRCDiscord w !!! k) /\
  (k <> discordID -> idDiscordIRC (recordEcho msgID discordID w) !!! k = idDiscordIRC w !!! k).
Proof.
  unfold recordEcho; simpl. split; intros Hk; by rewrite lookup_total_insert_ne.
Qed.

(** The send path of [discordSend]: the list of the IRC message grows by the
    Discord ID, but the list stored for the Discord ID is built from
    [idIRCDiscord], not from [idDiscordIRC]. *)
Lemma recordSent_tables (id mID : gostring) (w : World) :
  idIRCDiscord (recordSent id mID w) !!! id = (idIRCDiscord w !!! id) ++ [mID] /\
  idDiscordIRC (recordSent id mID w) !!! mID =
    (idIRCDiscord (recordSent id mID w) !!! mID) ++ [id].
Proof. unfold recordSent; simpl. by rewrite !lookup_total_insert_eq. Qed.

(** When the tables hold nothing under the new Discord ID, which is the case
    for an ID that Discord has just minted and that differs from every IRC
    ID, the send path records the pair as the echo path does. *)
Lemma recordSent_fresh (id mID : gostring) (w : World) :
  idIRCDiscord w !!! mID = [] -> idDiscordIRC w !!! mID = [] -> id <> mID ->
  recordSent id mID w = recordEcho id mID w.
Proof.
  intros H1 H2 Hne. unfold recordSent, recordEcho. f_equal.
  rewrite lookup_total_insert_ne by done. by rewrite H1, H2.
Qed.

(** The example of the specification, on both paths: after the pairs
    (irc1, discord1) and (irc1, discord2), the list of irc1 is discord1,
    discord2 and the list of discord2 is irc1. *)
Lemma record_example :
  let store (record : gostring -> gostring -> World -> World) :=
    record (bs "irc1") (bs "discord2")
      (record (bs "irc1") (bs "discord1") emptyWorld) in
  (idIRCDiscord (store recordEcho) !!! bs "irc1" = [bs "discord1"; bs "discord2"] /\
   idDiscordIRC (store recordEcho) !!! bs "discord2" = [bs "irc1"]) /\
  (idIRCDiscord (store recordSent) !!! bs "irc1" = [bs "discord1"; bs "discord2"] /\
   idDiscordIRC (store recordSent) !!! bs "discord2" = [bs "irc1"]).
Proof. vm_compute. tauto. Qed.

(** C1: the failing input.  The IRC message 100 has been relayed as the
    Discord message 200.  [discordSend] then relays the IRC message 300 and
    Discord names the new message 100: the list stored for the Discord ID 100
    is 200, 300 (the list of the IRC ID 100 with 300 appended) and not 300
    alone.  And when the list of a Discord ID already holds an entry, here i1
    for D, a send that is answered with D replaces the list by the new ID
    alone: the entry i1 is lost. *)
Theorem discordSend_reads_wrong_table :
  (let w := readyWorld {[bs "100" := [bs "200"]]} {[bs "200" := [bs "100"]]} in
   exists w',
     discordSend (demoEnv (bs "100")) (bs "300") (bs "D1") (bs "hi") [] w = Done tt w' /\
     idIRCDiscord w' !!! bs "300" = [bs "100"] /\
     idDiscordIRC w !!! bs "100" = [] /\
     idDiscordIRC w' !!! bs "100" = [bs "200"; bs "300"]) /\
  (let w := readyWorld ∅ {[bs "D" := [bs "i1"]]} in
   exists w',
     discordSend (demoEnv (bs "D")) (bs "i2") (bs "D1") (bs "hi") [] w = Done tt w' /\
     idDiscordIRC w !!! bs "D" = [bs "i1"] /\
     idDiscordIRC w' !!! bs "D" = [bs "i2"]).
Proof.
  split; simpl.
  - eexists. split; [vm_compute; reflexivity|]. vm_compute. tauto.
  - eexists. split; [vm_compute; reflexivity|]. vm_compute. tauto.
Qed.

(** C6, as amended.  When the list found for the referenced ID is not empty,
    [ircHandler] takes its last entry as reply target and [discordMessage]
    takes its first entry. *)
Theorem reply_target_last_and_first
    (tbl : gmap gostring (list gostring)) (key : gostring) :
  tbl !!! key <> [] ->
  Some (ircReplyID tbl key) = last (tbl !!! key) /\
  Some (discordReplyID tbl (Some key)) = head (tbl !!! key).
Proof.
  intros Hne. unfold ircReplyID, discordReplyID.
  destruct (tbl !!! key) as [|x ids] eqn:Hids; [done|].
  split.
  - rewrite last_lookup. simpl length. simpl Nat.pred.
    replace (S (length ids) - 1)%nat with (length ids) by lia.
    change (0 <? S (length ids))%nat with true. simpl.
    destruct ((x :: ids) !! length ids) eqn:Hl; [done|].
    apply lookup_ge_None in Hl. simpl in Hl. lia.
  - reflexivity.
Qed.

Lemma reply_target_last_and_first_witness :
  let tbl : gmap gostring (list gostring) := {[bs "m" := [bs "a"; bs "b"]]} in
  ircReplyID tbl (bs "m") = bs "b" /\ discordReplyID tbl (Some (bs "m")) = bs "a".
Proof.
  destruct (reply_target_last_and_first {[bs "m" := [bs "a"; bs "b"]]} (bs "m"))
    as [Hlast Hfirst]; [vm_compute; discriminate|].
  split; apply (inj Some).
  - rewrite Hlast. vm_compute. reflexivity.
  - rewrite Hfirst. vm_compute. reflexivity.
Defined.

(** C6, as stated, fails for the direction from Discord to IRC: with the
    entries a then b recorded for the referenced message, the reply target
    is a, not the last entry b. *)
Lemma discord_reply_not_last :
  let tbl : gmap gostring (list gostring) := {[bs "m" := [bs "a"; bs "b"]]} in
  last (tbl !!! bs "m") = Some (bs "b") /\
  discordReplyID tbl (Some (bs "m")) = bs "a" /\
  Some (discordReplyID tbl (Some (bs "m"))) <> last (tbl !!! bs "m").
Proof. vm_compute. repeat split; discriminate. Qed.

(** ** The IRC handler *)

Lemma TrimPrefix_nil (p : gostring) : TrimPrefix [] p = [].
Proof. unfold TrimPrefix. destruct (HasPrefix [] p); [apply drop_nil | done]. Qed.

(** A [PRIVMSG] with an empty body, from someone else, to a bridged channel,
    once the bridge is ready: the handler panics at [body[0]]. *)
Lemma ircHandler_empty_body (env : Env) (c : irc.Client) (w : World)
    (tags : gmap gostring gostring) (name target : gostring) :
  ircReady w = true -> name <> irc.CurrentNick c ->
  discordChannel env target <> [] ->
  ircHandler env c (irc.mkMessage tags name (bs "PRIVMSG") [target; []]) w = Panicked.
Proof.
  intros Hready Hname Hdc. unfold ircHandler. simpl.
  rewrite bool_decide_eq_false_2 by done. simpl.
  unfold mbind, M_bind, getWorld, ircHandshake. simpl.
  unfold mret, M_ret. rewrite Hready. simpl.
  unfold ircPrivmsg, mbind, M_bind, index. simpl. unfold mret, M_ret.
  destruct (discordChannel env target) eqn:Hd; [done|]. simpl.
  rewrite decide_False by done. simpl.
  destruct (negb (isEmpty _)); rewrite ?TrimPrefix_nil; reflexivity.
Qed.

(** C2: the failing inputs.  With the bridge ready, a [PRIVMSG] from alice
    to the bridged channel whose body is empty makes [ircHandler] panic; so
    does a reply whose body is only the nick prefix that the handler
    strips. *)
Theorem ircHandler_panics_on_empty_body :
  ircHandler (demoEnv (bs "d1")) demoClient (demoPrivmsg ∅ []) (readyWorld ∅ ∅)
    = Panicked /\
  ircHandler (demoEnv (bs "d1")) demoClient
    (demoPrivmsg {[bs "+draft/reply" := bs "i0"]} (bs "bridge: "))
    (readyWorld {[bs "i0" := [bs "d0"]]} {[bs "d0" := [bs "i0"]]})
    = Panicked.
Proof. split; vm_compute; reflexivity. Qed.

(** The same handler on a body that is not empty relays the message. *)
Lemma ircHandler_relays_body :
  exists w',
    ircHandler (demoEnv (bs "d1")) demoClient
      (demoPrivmsg {[bs "msgid" := bs "i1"]} (bs "hi")) (readyWorld ∅ ∅) = Done tt w' /\
    discordOut w' =
      [discordgo.ChannelMessageSendComplex (bs "D1")
         (zwsp ++ bs "**<alice>**" ++ zwsp ++ bs " hi") None] /\
    idIRCDiscord w' !!! bs "i1" = [bs "d1"].
Proof. eexists. split; [vm_compute; reflexivity|]. vm_compute. tauto. Qed.

(** The fuel of [discordTransform] is enough: more iterations than the text
    has bytes change nothing, because every iteration that goes on removes
    at least two bytes. *)
Lemma discordTransformLoop_fuel (f1 f2 : nat) (env : Env) (channel msg : gostring) :
  (length msg <= f1)%nat -> (length msg <= f2)%nat ->
  discordTransformLoop f1 env channel msg = discordTransformLoop f2 env channel msg.
Proof.
  revert f2 msg. induction f1 as [|f1 IH]; intros [|f2] msg H1 H2; simpl;
    try reflexivity.
  - destruct msg; [reflexivity | simpl in H1; lia].
  - destruct msg; [reflexivity | simpl in H2; lia].
  - destruct (isEmpty msg) eqn:He; [reflexivity|].
    destruct (IndexByte msg "`"%char) as [rawStart|]; [|reflexivity].
    destruct (0 <? rawStart)%nat; [|reflexivity].
    do 2 f_equal. apply IH; rewrite length_drop;
      destruct (IndexByte (drop (rawStart + 1) msg) "`"%char); lia.
Qed.

(** The reply targets as the two handlers use them.  The IRC message i1 has
    been relayed as the Discord messages d1 and d2: a reply to i1 on IRC is
    sent to Discord with a reference to d2.  The Discord message d1 has been
    relayed as the IRC messages i1 and i2: a reply to d1 on Discord is sent
    to IRC with the tag [+draft/reply] set to i1. *)
Lemma reply_targets_in_handlers :
  (exists w',
     ircHandler (demoEnv (bs "d3")) demoClient
       (demoPrivmsg {[bs "+draft/reply" := bs "i1"]} (bs "ok"))
       (readyWorld {[bs "i1" := [bs "d1"; bs "d2"]]} ∅) = Done tt w' /\
     discordOut w' =
       [discordgo.ChannelMessageSendComplex (bs "D1")
          (zwsp ++ bs "**<alice>**" ++ zwsp ++ bs " ok")
          (Some (bs "d2", bs "D1"))]) /\
  (exists w',
     discordMessage (demoEnv [])
       (discordgo.mkMessageCreate (bs "d9") (bs "D1") (bs "G") (bs "ok")
          (bs "u1") (bs "bob") 0 (Some []) (Some (bs "d1")) [])
       (readyWorld ∅ {[bs "d1" := [bs "i1"; bs "i2"]]}) = Done tt w' /\
     (fun m => irc.Tags m !!! bs "+draft/reply") <$> ircOut w' = [bs "i1"]).
Proof.
  split.
  - eexists. split; [vm_compute; reflexivity|]. vm_compute. reflexivity.
  - eexists. split; [vm_compute; reflexivity|]. vm_compute. reflexivity.
Qed.

(** ** The markdown tree walker *)

(** Induction on the tree: a property holds of every node when it holds of a
    node as soon as it holds of its children. *)
Lemma Node_children_ind (P : Node -> Prop) :
  (forall n, Forall P (childrenOf n) -> P n) -> forall n, P n.
Proof.
  intros H. fix IH 1. intros n. apply H.
  destruct n as [| ch | | ch | | | | | | | | ch | ch | ch | ch]; simpl;
    try (constructor; fail);
    (revert ch; fix IHl 1; intros [|x l];
       constructor; [apply IH | apply IHl]).
Qed.

(** A node that cannot be resolved is a leaf, and the callback writes its
    placeholder for it. *)
Lemma Walk_placeholder (env : Env) (guildID : gostring) (n : Node) (text : gostring) :
  placeholder env guildID n = Some text ->
  Walk (visit env guildID) n = text.
Proof.
  destruct n; simpl; try discriminate.
  - destruct (stateChannel env ID); [discriminate | congruence].
  - destruct (stateRole env guildID ID); [discriminate | congruence].
  - destruct (stateMember env guildID ID); [discriminate | congruence].
  - destruct (ParseInt Stamp); [|congruence].
    case_bool_decide as Hf; [discriminate|]. intros [= <-].
    repeat (rewrite decide_False;
            [|intros ->; apply Hf; rewrite !elem_of_cons; tauto]).
    reflexivity.
Qed.

(** Walking a sequence of nodes translates them one after the other. *)
Lemma WalkAll_app (f : Node -> bool -> gostring) (pre post : list Node) :
  WalkAll f (pre ++ post) = WalkAll f pre ++ WalkAll f post.
Proof. unfold WalkAll. by rewrite map_app, concat_app. Qed.

Lemma WalkAll_cons (f : Node -> bool -> gostring) (n : Node) (post : list Node) :
  WalkAll f (n :: post) = Walk f n ++ WalkAll f post.
Proof. reflexivity. Qed.

Lemma Walk_degrade (env : Env) (guildID : gostring) (n : Node) :
  Walk (visit env guildID) (degrade env guildID n) = Walk (visit env guildID) n.
Proof.
  induction n as [n IH] using Node_children_ind.
  assert (Hch : map (Walk (visit env guildID)) (map (degrade env guildID) (childrenOf n))
                = map (Walk (visit env guildID)) (childrenOf n)).
  { rewrite map_map. induction IH as [|x l Hx _ IHl]; simpl; [done|].
    by rewrite Hx, IHl. }
  destruct (placeholder env guildID n) as [text|] eqn:Hp.
  - rewrite (Walk_placeholder _ _ _ _ Hp).
    destruct n; simpl in *; try discriminate; rewrite Hp; reflexivity.
  - destruct n; simpl in *; try rewrite Hp; try reflexivity;
      by rewrite Hch.
Qed.

(** C7.  [discordIRCFormat] is a total function: no node makes the walk
    fail.  A node that cannot be resolved (an unknown channel, role or user
    mention, a timestamp whose epoch does not parse or whose format code is
    unknown) is translated to its fixed placeholder, wherever it stands
    among the nodes before and after it, and the whole translation is the
    translation of the tree in which each such node is replaced by the text
    of its placeholder: the rest of the tree is translated as usual. *)
Theorem discordIRCFormat_degrades (env : Env) (guildID : gostring) :
  (forall n text, placeholder env guildID n = Some text ->
     Walk (visit env guildID) n = text /\
     forall pre post,
       WalkAll (visit env guildID) (pre ++ n :: post) =
       WalkAll (visit env guildID) pre ++ text ++ WalkAll (visit env guildID) post) /\
  (forall id, stateChannel env id = None ->
     placeholder env guildID (ChannelMentionNode id) = Some (bs "#invalid-channel")) /\
  (forall id, stateRole env guildID id = None ->
     placeholder env guildID (RoleMentionNode id) = Some (bs "@invalid-role")) /\
  (forall id, stateMember env guildID id = None ->
     placeholder env guildID (UserMentionNode id) = Some (bs "@invalid-user")) /\
  (forall stamp format,
     ParseInt stamp = None \/
     format ∉ [bs "t"; bs "T"; bs "d"; bs "D"; bs "f"; bs "F"; bs "R"] ->
     placeholder env guildID (TimestampNode stamp format) = Some (bs "<invalid-timestamp>")) /\
  (forall m,
     discordIRCFormat env guildID m =
     WalkAll (visit env guildID) (map (degrade env guildID) (discordParser_Parse env m))).
Proof.
  repeat split.
  - by apply Walk_placeholder.
  - intros pre post. rewrite WalkAll_app, WalkAll_cons.
    by rewrite (Walk_placeholder _ _ _ _ H).
  - intros id H. simpl. by rewrite H.
  - intros id H. simpl. by rewrite H.
  - intros id H. simpl. by rewrite H.
  - intros stamp format [H|H]; simpl.
    + by rewrite H.
    + destruct (ParseInt stamp); [|done]. by rewrite bool_decide_eq_false_2.
  - intros m. unfold discordIRCFormat, WalkAll. f_equal.
    rewrite map_map. apply map_ext. intros n. symmetry. apply Walk_degrade.
Qed.

(** A document with an unknown user between two texts, inside bold. *)
Lemma discordIRCFormat_degrades_witness :
  let env := demoEnv [] in
  let f := visit env (bs "G") in
  placeholder env (bs "G") (UserMentionNode (bs "42")) = Some (bs "@invalid-user") /\
  WalkAll f ([BoldNode [TextNode (bs "hi ")]] ++ UserMentionNode (bs "42") :: [TextNode (bs "!")])
    = fBold :: bs "hi " ++ fBold :: bs "@invalid-user!".
Proof.
  split; [reflexivity|].
  destruct (discordIRCFormat_degrades (demoEnv []) (bs "G")) as [Hnode _].
  destruct (Hnode (UserMentionNode (bs "42")) (bs "@invalid-user") eq_refl) as [_ Hctx].
  rewrite Hctx. reflexivity.
Defined.

(** ** The sender name *)























(** ** Newlines in the text sent to IRC *)





(** * Further properties *)

(** ** [discordFormat] as a one-pass scan *)

Lemma isDigit_drop (msg : gostring) (i j : nat) :
  isDigit (drop i msg) j = isDigit msg (i + j).
Proof. unfold isDigit. by rewrite lookup_drop. Qed.

Lemma colorSkip_drop (msg : gostring) (i : nat) :
  colorSkip msg i = (i + colorSkip (drop i msg) 0)%nat.
Proof.
  unfold colorSkip. rewrite !isDigit_drop, !lookup_drop.
  replace (i + (0 + 1 + 1))%nat with (i + 1 + 1)%nat by lia.
  destruct (isDigit msg (i + 1 + 1)).
  - replace (i + (0 + 1 + 1 + 2))%nat with (i + 1 + 1 + 2)%nat by lia.
    replace (i + (0 + 1 + 1 + 1))%nat with (i + 1 + 1 + 1)%nat by lia.
    replace (i + (0 + 1 + 1 + 2 + 1))%nat with (i + 1 + 1 + 2 + 1)%nat by lia.
    repeat match goal with |- context [if ?b then _ else _] => destruct b end; lia.
  - replace (i + (0 + 1 + 2))%nat with (i + 1 + 2)%nat by lia.
    replace (i + (0 + 1 + 1))%nat with (i + 1 + 1)%nat by lia.
    replace (i + (0 + 1 + 2 + 1))%nat with (i + 1 + 2 + 1)%nat by lia.
    repeat match goal with |- context [if ?b then _ else _] => destruct b end; lia.
Qed.

(** The [switch] at index [i] of a text is the [switch] at index [0] of the
    text from [i] on. *)
Lemma switchByte_drop (msg : gostring) (i : nat) (c : ascii)
    (next : ircStyle) (raw0 : bool) (u : nat) :
  switchByte (drop i msg) 0 c next raw0 (u - i) =
    match switchByte msg i c next raw0 u with
    | Continue i' => Continue (i' - i)
    | Fall next' raw' write => Fall next' raw' write
    end.
Proof.
  unfold switchByte.
  rewrite isDigit_drop, drop_drop, (colorSkip_drop msg i).
  replace (u - i <=? 0)%nat with (u <=? i)%nat
    by (destruct (Nat.leb_spec u i), (Nat.leb_spec (u - i) 0); lia).
  repeat case_decide; try reflexivity.
  - f_equal; lia.
  - replace (i + (0 + 1))%nat with (i + 1)%nat by lia.
    destruct (negb (isDigit msg (i + 1))); f_equal; lia.
  - f_equal; lia.
  - destruct (u <=? i)%nat; reflexivity.
Qed.

Ltac scan_eq := repeat first [reflexivity | lia | progress f_equal].

Lemma scan_nil (k : nat) (p n : ircStyle) (r : bool) (u : nat) :
  scan k p n r u [] = [].
Proof. reflexivity. Qed.

(** Bytes that a colour case passes over are dropped. *)
Lemma scan_skip (k : nat) (p n : ircStyle) (r : bool) (u : nat) (s : gostring) :
  scan k p n r u s = scan 0 p n r (u - k) (drop k s).
Proof.
  revert u s. induction k as [|k IH]; intros u s.
  - by rewrite Nat.sub_0_r, drop_0.
  - destruct s as [|c t]; [reflexivity|]. simpl. rewrite IH. f_equal. lia.
Qed.

(** The loop of [discordFormat], from any state, appends to the builder
    what [scan] gives for the text that is left. *)
Lemma fmtLoop_scan (fuel : nat) (msg : gostring) (st : fmtState) :
  (length msg - pos st <= fuel)%nat ->
  sb (fmtLoop fuel msg st) =
    sb st ++ scan 0 (prevStyle st) (nextStyle st) (raw st)
               (urlEnd st - pos st) (drop (pos st) msg).
Proof.
  revert st. induction fuel as [|fuel IH]; intros st Hf.
  - simpl. rewrite drop_ge by lia. by rewrite scan_nil, app_nil_r.
  - simpl. destruct (Nat.ltb_spec (pos st) (length msg)) as [Hlt|Hge].
    2: { rewrite drop_ge by lia. by rewrite scan_nil, app_nil_r. }
    pose proof (iter_pos msg st Hlt) as Hpos.
    rewrite IH by lia. clear IH.
    destruct (msg !! pos st) as [c|] eqn:Hc.
    2: { apply lookup_ge_None in Hc. lia. }
    rewrite (drop_S msg c (pos st) Hc).
    assert (Ht : isEmpty (drop (S (pos st)) msg) = negb (pos st + 1 <? length msg)%nat).
    { destruct (drop (S (pos st)) msg) as [|d t] eqn:Hd; simpl.
      - apply (f_equal length) in Hd. rewrite length_drop in Hd. simpl in Hd.
        destruct (Nat.ltb_spec (pos st + 1) (length msg)); [lia | done].
      - apply (f_equal length) in Hd. rewrite length_drop in Hd. simpl in Hd.
        destruct (Nat.ltb_spec (pos st + 1) (length msg)); [done | lia]. }
    unfold iter. rewrite Hc.
    cbn [scan].
    destruct (raw st && negb (bool_decide (c = "`"%char))).
    { cbn [pos prevStyle nextStyle raw urlEnd sb].
      rewrite <- app_assoc. simpl. scan_eq. }
    rewrite <- (drop_S msg c (pos st) Hc).
    set (u' := if (urlEnd st <=? pos st)%nat then _ else _).
    set (ul' := if (urlEnd st - pos st <=? 0)%nat then _ else _).
    assert (Hul : ul' = (u' - pos st)%nat).
    { unfold ul', u'.
      destruct (Nat.leb_spec (urlEnd st) (pos st)),
        (Nat.leb_spec (urlEnd st - pos st) 0); try lia;
      destruct (patternURL_FindStringIndex (drop (pos st) msg)); lia. }
    rewrite Hul, switchByte_drop.
    destruct (switchByte msg (pos st) c (nextStyle st) (raw st) u')
      as [i'|next' raw' write] eqn:Hsw.
    { cbn [pos prevStyle nextStyle raw urlEnd sb].
      rewrite (scan_skip (i' - pos st)), drop_drop.
      assert (pos st <= i')%nat.
      { apply switchByte_Continue in Hsw as (_ & _ & [->|[[_ ->]|[_ ->]]]);
          [lia | pose proof (colorSkip_ge msg (pos st)); lia | lia]. }
      scan_eq. }
    rewrite Ht, negb_involutive.
    replace (S (pos st)) with (pos st + 1)%nat by lia.
    destruct (isEmpty write && (pos st + 1 <? length msg)%nat).
    { cbn [pos prevStyle nextStyle raw urlEnd sb]. scan_eq. }
    destruct (style_eqb (prevStyle st) next').
    { cbn [pos prevStyle nextStyle raw urlEnd sb].
      rewrite <- app_assoc. scan_eq. }
    destruct (isEmpty write);
      cbn [pos prevStyle nextStyle raw urlEnd sb];
      rewrite <- ?app_assoc; scan_eq.
Qed.

(** [discordFormat] is the scan of the text followed by the reset marker. *)
Lemma discordFormat_scan (msg : gostring) :
  discordFormat msg = scan 0 noStyle noStyle false 0 (msg ++ [fReset]).
Proof.
  unfold discordFormat, discordFormatRun.
  rewrite fmtLoop_scan by (simpl; lia). reflexivity.
Qed.

Lemma plainByte_inv (c : ascii) :
  plainByte c ->
  c <> fBold /\ c <> fItalics /\ c <> fUnderline /\ c <> fStrikethrough /\
  c <> fReset /\ c <> fMonospace /\ c <> fReverse /\ c <> fColor /\
  c <> fColorHex /\ c <> "`"%char /\ c <> "\"%char /\ c <> "*"%char /\
  c <> "_"%char /\ c <> "~"%char.
Proof.
  unfold plainByte. rewrite !not_elem_of_cons. tauto.
Qed.

(** A plain byte falls through the [switch] as itself. *)
Lemma switchByte_plain (s : gostring) (i : nat) (c : ascii)
    (next : ircStyle) (raw0 : bool) (u : nat) :
  plainByte c -> switchByte s i c next raw0 u = Fall next raw0 [c].
Proof.
  intros Hc. apply plainByte_inv in Hc. unfold switchByte.
  repeat (rewrite decide_False by tauto). reflexivity.
Qed.

(** One of the four escaped characters falls through with or without its
    backslash, by the position of the end of the last URL. *)
Lemma switchByte_meta (s : gostring) (i : nat) (c : ascii)
    (next : ircStyle) (raw0 : bool) (u : nat) :
  c ∈ ["\"; "*"; "_"; "~"]%char ->
  switchByte s i c next raw0 u =
    if (u <=? i)%nat then Fall next raw0 ["\"%char; c] else Fall next raw0 [c].
Proof.
  rewrite !elem_of_cons, elem_of_nil. intros Hc. unfold switchByte.
  assert (Hm : c = "\"%char \/ c = "*"%char \/ c = "_"%char \/ c = "~"%char) by tauto.
  clear Hc.
  repeat (rewrite decide_False
            by (let E := fresh in
                intros E; destruct Hm as [Hm|[Hm|[Hm|Hm]]]; rewrite Hm in E;
                first [discriminate E | destruct E; discriminate])).
  rewrite decide_True by exact Hm. reflexivity.
Qed.

Lemma transition_same (p : ircStyle) : transition p p = [].
Proof.
  unfold transition. by rewrite (proj2 (style_eqb_eq p p) eq_refl).
Qed.

Lemma closeMarkers_noStyle : closeMarkers noStyle = [].
Proof. reflexivity. Qed.

(** The end of the scan: the reset marker that [discordFormat] appends
    closes the open run. *)
Lemma scan_end (prev next : ircStyle) (u : nat) :
  scan 0 prev next false u [fReset] = closeMarkers prev.
Proof.
  cbn [scan]. cbn [andb].
  set (ul := if (u <=? 0)%nat then _ else _).
  change (switchByte [fReset] 0 fReset next false ul) with (Fall noStyle false []).
  cbn [isEmpty negb andb].
  destruct (style_eqb prev noStyle) eqn:He; simpl.
  - apply style_eqb_eq in He. by subst.
  - by rewrite app_nil_r.
Qed.

(** Scanning a plain byte writes it, after the markers of a style change. *)
Lemma scan_plain_cons (prev next : ircStyle) (u : nat) (c : ascii) (t : gostring) :
  plainByte c ->
  exists u', scan 0 prev next false u (c :: t) =
             transition prev next ++ c :: scan 0 next next false u' t.
Proof.
  intros Hc. cbn [scan andb].
  set (ul := if (u <=? 0)%nat then _ else _). exists (ul - 1)%nat.
  rewrite switchByte_plain by done. cbn [isEmpty andb]. unfold transition.
  destruct (style_eqb prev next) eqn:He.
  - apply style_eqb_eq in He. by subst.
  - by rewrite <- !app_assoc.
Qed.

(** Plain text up to the end: the text, between the markers that open the
    pending style and those that close it. *)
Lemma scan_plain (s : gostring) :
  Forall plainByte s -> s <> [] ->
  forall prev next u,
    scan 0 prev next false u (s ++ [fReset]) =
    transition prev next ++ s ++ closeMarkers next.
Proof.
  induction 1 as [|c s Hc Hs IH]; [done|]. intros _ prev next u.
  rewrite <- app_comm_cons.
  destruct (scan_plain_cons prev next u c (s ++ [fReset]) Hc) as [u' ->].
  f_equal. simpl. f_equal.
  destruct s as [|d s'].
  - apply scan_end.
  - rewrite IH by done. by rewrite transition_same.
Qed.

(** Plain text before more text. *)
Lemma scan_plain_prefix (p : gostring) :
  Forall plainByte p ->
  forall rest u, exists u',
    scan 0 noStyle noStyle false u (p ++ rest) =
    p ++ scan 0 noStyle noStyle false u' rest.
Proof.
  induction 1 as [|c p Hc Hp IH]; intros rest u; [by exists u|].
  destruct (scan_plain_cons noStyle noStyle u c (p ++ rest) Hc) as [u1 H1].
  destruct (IH rest u1) as [u' H2]. exists u'.
  rewrite <- app_comm_cons, H1, transition_same, H2. reflexivity.
Qed.

(** A style byte changes the pending style and gives no text. *)
Lemma switchByte_styleByte (s : gostring) (i : nat) (c : ascii)
    (next : ircStyle) (raw0 : bool) (u : nat) :
  styleByte c ->
  switchByte s i c next raw0 u = Fall (styleAfter c next) raw0 [] \/
  (switchByte s i c next raw0 u = Continue i /\ styleAfter c next = next).
Proof.
  unfold styleByte. rewrite !elem_of_cons, elem_of_nil.
  intros [->|[->|[->|[->|[->|[->|[->|[]]]]]]]];
    first [left; reflexivity | right; split; reflexivity].
Qed.

(** Scanning a style byte that is not the last byte changes the pending
    style and writes nothing. *)
Lemma scan_style_cons (prev next : ircStyle) (u : nat) (c : ascii) (t : gostring) :
  styleByte c -> t <> [] ->
  exists u', scan 0 prev next false u (c :: t) =
             scan 0 prev (styleAfter c next) false u' t.
Proof.
  intros Hc Ht. cbn [scan andb].
  set (ul := if (u <=? 0)%nat then _ else _). exists (ul - 1)%nat.
  destruct (switchByte_styleByte (c :: t) 0 c next false ul Hc) as [->|[-> ->]].
  - destruct t; [done | reflexivity].
  - reflexivity.
Qed.

Lemma scan_styles (ms : gostring) :
  Forall styleByte ms ->
  forall rest prev next u, rest <> [] ->
    exists u', scan 0 prev next false u (ms ++ rest) =
               scan 0 prev (styleOf ms next) false u' rest.
Proof.
  induction 1 as [|c ms Hc Hms IH]; intros rest prev next u Hrest; [by exists u|].
  destruct (scan_style_cons prev next u c (ms ++ rest) Hc) as [u1 H1].
  { destruct ms; simpl; [done | discriminate]. }
  destruct (IH rest prev (styleAfter c next) u1 Hrest) as [u' H2].
  exists u'. rewrite <- app_comm_cons, H1, H2. reflexivity.
Qed.

(** X1.  Text that holds no formatting byte, no backtick and none of the
    four escaped characters is translated to itself, whether or not it
    holds URLs. *)
Theorem discordFormat_plain (s : gostring) :
  Forall plainByte s -> discordFormat s = s.
Proof.
  intros Hs. rewrite discordFormat_scan.
  destruct s as [|c s]; [vm_compute; reflexivity|].
  rewrite scan_plain by done.
  by rewrite transition_same, closeMarkers_noStyle, app_nil_r.
Qed.

Lemma discordFormat_plain_witness :
  discordFormat (bs "see http://x.y/z, ok?") = bs "see http://x.y/z, ok?".
Proof.
  apply discordFormat_plain.
  apply (bool_decide_unpack _). vm_compute. exact I.
Defined.

(** ** Runs of styled text *)

Lemma scan_plain_run (a : gostring) :
  Forall plainByte a -> a <> [] ->
  forall rest prev next u, exists u',
    scan 0 prev next false u (a ++ rest) =
    transition prev next ++ a ++ scan 0 next next false u' rest.
Proof.
  induction 1 as [|c a Hc Ha IH]; [done|]. intros _ rest prev next u.
  rewrite <- app_comm_cons.
  destruct (scan_plain_cons prev next u c (a ++ rest) Hc) as [u1 ->].
  destruct a as [|d a'].
  - exists u1. reflexivity.
  - destruct (IH ltac:(done) rest next next u1) as [u' ->]. exists u'.
    by rewrite transition_same.
Qed.

Lemma scan_runs (trailing : gostring) (runs : list (gostring * gostring)) :
  Forall styleByte trailing ->
  Forall (fun r => Forall styleByte (fst r) /\ Forall plainByte (snd r) /\
                   snd r <> []) runs ->
  forall prev next u,
    scan 0 prev next false u (flattenRuns runs ++ trailing ++ [fReset]) =
    renderRuns prev next runs.
Proof.
  intros Htr. induction 1 as [|[ms s] runs (Hms & Hs & Hne) Hruns IH];
    intros prev next u.
  - cbn [flattenRuns map concat app renderRuns].
    destruct (scan_styles trailing Htr [fReset] prev next u) as [u' ->]; [done|].
    apply scan_end.
  - cbn [flattenRuns map concat renderRuns fst snd] in *.
    fold (flattenRuns runs). rewrite <- !app_assoc.
    destruct (scan_styles ms Hms (s ++ flattenRuns runs ++ trailing ++ [fReset])
                prev next u) as [u1 ->].
    { destruct s; [done | discriminate]. }
    destruct (scan_plain_run s Hs Hne (flattenRuns runs ++ trailing ++ [fReset])
                prev (styleOf ms next) u1) as [u2 ->].
    by rewrite IH.
Qed.

(** X2.  On a text made of style bytes and plain bytes only,
    [discordFormat] writes the plain text of each run unchanged; before a
    run whose style differs from the style written last it closes the
    markers of that style, writes a zero width space and opens the markers
    of the new style; at the end it closes the markers of the last run.
    Style bytes after the last run are dropped. *)
Theorem discordFormat_runs (runs : list (gostring * gostring))
    (trailing : gostring) :
  Forall (fun r => Forall styleByte (fst r) /\ Forall plainByte (snd r) /\
                   snd r <> []) runs ->
  Forall styleByte trailing ->
  discordFormat (flattenRuns runs ++ trailing) = renderRuns noStyle noStyle runs.
Proof.
  intros Hruns Htr. rewrite discordFormat_scan, <- app_assoc.
  by apply scan_runs.
Qed.

(** Bold, then italics on top of it, then a reset. *)
Lemma discordFormat_runs_witness :
  discordFormat (fBold :: bs "a" ++ fItalics :: bs "b" ++ fReset :: bs "c" ++ [fBold])
  = zwsp ++ bs "**a**" ++ zwsp ++ bs "***b***" ++ zwsp ++ bs "c".
Proof.
  etrans; [apply (discordFormat_runs
                     [([fBold], bs "a"); ([fItalics], bs "b"); ([fReset], bs "c")]
                     [fBold])|].
  - repeat constructor; try discriminate;
      try (apply (bool_decide_unpack _); vm_compute; exact I).
  - repeat constructor; try (apply (bool_decide_unpack _); vm_compute; exact I).
  - vm_compute. reflexivity.
Defined.
(** X3.  In a text without formatting byte and without backtick in which no
    URL starts at any position, every backslash, asterisk, underscore and
    tilde is written with a backslash before it, and nothing else
    changes. *)
Theorem discordFormat_escapes (s : gostring) :
  Forall (fun c => plainByte c \/ c ∈ ["\"; "*"; "_"; "~"]%char) s ->
  (forall i, patternURL_FindStringIndex (drop i (s ++ [fReset])) = None) ->
  discordFormat s = escapeMeta s.
Proof.
  intros Hs Hurl. rewrite discordFormat_scan.
  induction Hs as [|c s Hc Hs IH].
  - vm_compute. reflexivity.
  - rewrite <- app_comm_cons. cbn [scan andb]. cbn [Nat.leb].
    rewrite (Hurl 0%nat : patternURL_FindStringIndex (c :: s ++ [fReset]) = None).
    assert (IH' : scan 0 noStyle noStyle false 0 (s ++ [fReset]) = escapeMeta s).
    { apply IH. intros i. exact (Hurl (S i)). }
    unfold escapeMeta. cbn [map concat]. fold (escapeMeta s).
    destruct Hc as [Hc|Hc].
    + rewrite switchByte_plain by done. cbn [isEmpty andb style_eqb noStyle].
      rewrite bool_decide_eq_false_2.
      2: { apply plainByte_inv in Hc. rewrite !elem_of_cons, elem_of_nil. tauto. }
      simpl. by rewrite IH'.
    + rewrite switchByte_meta by done. cbn [Nat.leb isEmpty andb].
      rewrite bool_decide_eq_true_2 by done.
      simpl. by rewrite IH'.
Qed.

Lemma discordFormat_escapes_witness :
  discordFormat (bs "a_b*c") = bs "a\_b\*c".
Proof.
  rewrite discordFormat_escapes; [vm_compute; reflexivity | |].
  - apply (bool_decide_unpack _). vm_compute. exact I.
  - intros i. do 6 (destruct i as [|i]; [vm_compute; reflexivity|]).
    simpl. by rewrite drop_nil.
Defined.

(** Text inside a URL that has been found: no byte is escaped. *)
Lemma scan_in_url (s : gostring) :
  Forall (fun c => plainByte c \/ c ∈ ["\"; "*"; "_"; "~"]%char) s ->
  forall u, (length s < u)%nat ->
    scan 0 noStyle noStyle false u (s ++ [fReset]) = s.
Proof.
  induction 1 as [|c s Hc Hs IH]; intros u Hu.
  - apply scan_end.
  - rewrite <- app_comm_cons. cbn [scan andb]. simpl in Hu.
    destruct u as [|u]; [lia|]. cbn [Nat.leb].
    assert (IH' : scan 0 noStyle noStyle false (S u - 1) (s ++ [fReset]) = s)
      by (apply IH; lia).
    destruct Hc as [Hc|Hc].
    + rewrite switchByte_plain by done. rewrite !IH'. reflexivity.
    + rewrite switchByte_meta by done. cbn [Nat.leb]. rewrite !IH'. reflexivity.
Qed.

Lemma lastWhere_snoc (P : ascii -> bool) (l : gostring) (x : ascii) :
  P x = true -> lastWhere P (l ++ [x]) = Some (length l).
Proof.
  intros Hx. induction l as [|c l IH]; simpl; [by rewrite Hx|]. by rewrite IH.
Qed.

Lemma takeWhile_all (P : ascii -> bool) (l : gostring) :
  Forall (fun c => P c = true) l -> takeWhile P l = l.
Proof. induction 1 as [|c l Hc _ IH]; simpl; [done|]. by rewrite Hc, IH. Qed.

(** The reset marker is no continuation byte: a rune that starts in a text
    ends before the reset marker that follows the text. *)
Lemma Decode_width_before_reset (rest : gostring) :
  rest <> [] ->
  (snd (DecodeRuneInString (rest ++ [fReset])) <= length rest)%nat.
Proof.
  intros Hrest. destruct rest as [|b0 rest]; [done|]. clear Hrest.
  assert (Hr : forall lo hi, 128 <= lo -> isCont lo hi fReset = false).
  { intros lo hi Hlo. unfold isCont.
    change (byteZ fReset) with 15. destruct (Z.leb_spec lo 15); [lia | done]. }
  unfold DecodeRuneInString. rewrite <- app_comm_cons. cbv zeta.
  destruct (byteZ b0 <? 128); [simpl; lia|].
  destruct (byteZ b0 <? 194); [simpl; lia|].
  destruct (byteZ b0 <? 224).
  { destruct rest as [|b1 rest]; simpl app; cbv beta iota.
    - rewrite Hr by lia. simpl. lia.
    - destruct (isCont 128 191 b1); simpl; lia. }
  destruct (byteZ b0 <? 240).
  { destruct rest as [|b1 [|b2 rest]]; simpl app; cbv beta iota.
    - simpl. lia.
    - rewrite (Hr 128 191) by lia. rewrite andb_false_r. simpl. lia.
    - destruct (_ && _); simpl; lia. }
  destruct (byteZ b0 <? 245); [|simpl; lia].
  destruct rest as [|b1 [|b2 [|b3 rest]]]; simpl app; cbv beta iota.
  - simpl. lia.
  - simpl. lia.
  - rewrite (Hr 128 191) by lia. rewrite andb_false_r. simpl. lia.
  - destruct (_ && _); simpl; lia.
Qed.

(** A scheme followed by bytes of the URL class, up to the end of the text:
    the URL found runs over the whole text and the appended reset marker. *)
Lemma patternURL_whole (scheme rest : gostring) :
  scheme = bs "http://" \/ scheme = bs "https://" ->
  rest <> [] -> Forall (fun c => urlBody c = true) rest ->
  patternURL_FindStringIndex (scheme ++ rest ++ [fReset]) =
    Some (length scheme + length rest + 1)%nat.
Proof.
  intros Hscheme Hrest Hbody.
  assert (Hsl : schemeLen (scheme ++ rest ++ [fReset]) = Some (length scheme) /\
                drop (length scheme) (scheme ++ rest ++ [fReset]) = rest ++ [fReset]).
  { destruct rest as [|r rest']; [done|].
    destruct Hscheme as [-> | ->]; split; reflexivity. }
  destruct Hsl as [Hsl Hdrop].
  unfold patternURL_FindStringIndex. rewrite Hsl, Hdrop.
  rewrite takeWhile_all.
  2: { apply Forall_app. split; [done|]. by repeat constructor. }
  rewrite lastWhere_snoc by reflexivity.
  pose proof (Decode_width_before_reset rest Hrest) as Hw.
  apply Nat.leb_le in Hw. rewrite Hw. reflexivity.
Qed.

(** The scan of a text at the start of which a URL is found that runs
    beyond its end. *)
Lemma scan_url_start (s : gostring) (e : nat) :
  Forall (fun c => plainByte c \/ c ∈ ["\"; "*"; "_"; "~"]%char) s ->
  patternURL_FindStringIndex (s ++ [fReset]) = Some e -> (length s < e)%nat ->
  scan 0 noStyle noStyle false 0 (s ++ [fReset]) = s.
Proof.
  intros Hs Hurl He. destruct Hs as [|c s Hc Hs]; [apply scan_end|].
  rewrite <- app_comm_cons in *. cbn [scan andb Nat.leb]. rewrite Hurl.
  simpl in He.
  assert (IH' : scan 0 noStyle noStyle false (e - 1) (s ++ [fReset]) = s)
    by (apply scan_in_url; [done | lia]).
  destruct Hc as [Hc|Hc].
  - rewrite switchByte_plain by done. rewrite !IH'. reflexivity.
  - rewrite switchByte_meta by done.
    replace (e <=? 0)%nat with false by (symmetry; apply Nat.leb_gt; lia).
    rewrite !IH'. reflexivity.
Qed.

(** X4.  A URL that runs to the end of the text is translated to itself:
    the underscores, asterisks, tildes and backslashes in it are not
    escaped.  The URL is a scheme, [http://] or [https://], followed by at
    least one byte, none of them a space of the class [\s], a [<], a
    formatting byte or a backtick. *)
Theorem discordFormat_url (scheme rest : gostring) :
  scheme = bs "http://" \/ scheme = bs "https://" ->
  rest <> [] ->
  Forall (fun c => urlBody c = true /\
                   (plainByte c \/ c ∈ ["\"; "*"; "_"; "~"]%char)) rest ->
  discordFormat (scheme ++ rest) = scheme ++ rest.
Proof.
  intros Hscheme Hrest Hok. rewrite discordFormat_scan.
  apply (scan_url_start _ (length scheme + length rest + 1)).
  - apply Forall_app. split.
    + destruct Hscheme as [-> | ->]; apply (bool_decide_unpack _); vm_compute; exact I.
    + eapply Forall_impl; [exact Hok|]. by intros c [_ ?].
  - rewrite <- app_assoc. apply patternURL_whole; [done | done |].
    eapply Forall_impl; [exact Hok|]. by intros c [? _].
  - rewrite length_app. lia.
Qed.

Lemma discordFormat_url_witness :
  discordFormat (bs "https://" ++ bs "a.b/x_y_z~1") = bs "https://a.b/x_y_z~1".
Proof.
  rewrite discordFormat_url; [reflexivity | by right | discriminate |].
  apply (bool_decide_unpack _). vm_compute. exact I.
Defined.

Lemma IndexByte_app_first (s rest : gostring) (c : ascii) :
  c ∉ s -> IndexByte (s ++ c :: rest) c = Some (length s).
Proof.
  induction s as [|b s IH]; simpl; intros Hc.
  - by rewrite decide_True.
  - apply not_elem_of_cons in Hc as [Hb Hs].
    rewrite decide_False by done. by rewrite IH.
Qed.

Lemma switchByte_backtick (m : gostring) (i : nat) (next : ircStyle)
    (raw0 : bool) (u : nat) :
  switchByte m i "`" next raw0 u =
    Fall next
      (if negb raw0 then
         match IndexByte (drop (i + 1) m) "`"%char with
         | Some k => if (0 <? k)%nat then true else raw0
         | None => raw0
         end
       else false) ["`"%char].
Proof. reflexivity. Qed.

(** Inside a raw span every byte but the backtick is copied. *)
Lemma scan_raw (s : gostring) :
  "`"%char ∉ s ->
  forall rest p n u,
    scan 0 p n true u (s ++ rest) = s ++ scan 0 p n true (u - length s) rest.
Proof.
  induction s as [|c s IH]; intros Hs rest p n u.
  - simpl. by rewrite Nat.sub_0_r.
  - apply not_elem_of_cons in Hs as [Hc Hs].
    rewrite <- !app_comm_cons. cbn [scan andb].
    rewrite bool_decide_eq_false_2 by done. cbn [negb].
    rewrite IH by done. change (length (c :: s)) with (S (length s)). scan_eq.
Qed.

(** X5.  A raw span between plain texts: from the opening backtick to the
    closing one every byte is copied as it is, formatting bytes and escaped
    characters included, when the span is not empty. *)
Theorem discordFormat_raw_span (p1 s p2 : gostring) :
  Forall plainByte p1 -> Forall plainByte p2 ->
  s <> [] -> "`"%char ∉ s ->
  discordFormat (p1 ++ "`"%char :: s ++ "`"%char :: p2) =
    p1 ++ "`"%char :: s ++ "`"%char :: p2.
Proof.
  intros Hp1 Hp2 Hne Hs. rewrite discordFormat_scan, <- app_assoc.
  destruct (scan_plain_prefix p1 Hp1
              (("`"%char :: s ++ "`"%char :: p2) ++ [fReset]) 0%nat) as [u1 ->].
  f_equal. rewrite <- app_comm_cons, <- app_assoc, <- app_comm_cons.
  cbn [scan andb].
  set (ul := if (u1 <=? 0)%nat then _ else _).
  assert (Hsw : switchByte ("`"%char :: s ++ "`"%char :: p2 ++ [fReset]) 0 "`"
                  noStyle false ul = Fall noStyle true ["`"%char]).
  { rewrite switchByte_backtick. cbn [negb drop Nat.add]. rewrite drop_0.
    rewrite (IndexByte_app_first s _ _ Hs).
    destruct s; [done | reflexivity]. }
  rewrite Hsw. cbn [isEmpty andb]. simpl style_eqb. cbv iota.
  simpl app. f_equal.
  rewrite scan_raw by done. f_equal.
  cbn [scan andb]. simpl bool_decide. cbn [negb andb].
  set (ul2 := if (_ <=? 0)%nat then _ else _).
  rewrite switchByte_backtick. cbn [negb].
  cbn [isEmpty andb]. simpl style_eqb. cbv iota. simpl app. f_equal.
  destruct p2 as [|c p2]; [apply scan_end|].
  rewrite scan_plain by done.
  by rewrite transition_same, closeMarkers_noStyle, app_nil_r.
Qed.

Lemma discordFormat_raw_span_witness :
  discordFormat (bs "run " ++ "`"%char :: (bs "a_b" ++ [fBold] ++ bs "*c") ++ "`"%char :: bs " now")
  = bs "run `a_b" ++ [fBold] ++ bs "*c` now".
Proof.
  rewrite discordFormat_raw_span; [reflexivity | | | discriminate |];
    apply (bool_decide_unpack _); vm_compute; exact I.
Defined.

(** X6.  The hex colour marker and the six bytes after it are dropped,
    whatever the six bytes are; the text before and the text after are
    joined. *)
Theorem discordFormat_hex_skip (p1 six p2 : gostring) :
  Forall plainByte p1 -> Forall plainByte p2 -> length six = 6%nat ->
  discordFormat (p1 ++ fColorHex :: six ++ p2) = p1 ++ p2.
Proof.
  intros Hp1 Hp2 Hsix. rewrite discordFormat_scan, <- app_assoc.
  destruct (scan_plain_prefix p1 Hp1 ((fColorHex :: six ++ p2) ++ [fReset]) 0%nat)
    as [u1 ->].
  f_equal. rewrite <- app_comm_cons, <- app_assoc. cbn [scan andb].
  set (ul := if (u1 <=? 0)%nat then _ else _).
  change (switchByte (fColorHex :: six ++ p2 ++ [fReset]) 0 fColorHex noStyle false ul)
    with (Continue 6).
  cbv beta iota. rewrite (scan_skip 6), drop_app_length' by done.
  destruct p2 as [|c p2]; [apply scan_end|].
  rewrite scan_plain by done.
  by rewrite transition_same, closeMarkers_noStyle, app_nil_r.
Qed.

Lemma discordFormat_hex_skip_witness :
  discordFormat (bs "ab" ++ fColorHex :: bs "FF`0*0" ++ bs "cd") = bs "abcd".
Proof.
  rewrite discordFormat_hex_skip; [reflexivity | | | reflexivity];
    apply (bool_decide_unpack _); vm_compute; exact I.
Defined.

(** X7.  When a digit follows the colour marker at index [i], the colour
    case passes over at most five bytes, and every byte it passes over is a
    digit or a comma: it never takes a byte of the text, nor the reset
    marker at the end. *)
Theorem colorSkip_only_digits (msg : gostring) (i : nat) :
  isDigit msg (i + 1) = true ->
  (i + 1 <= colorSkip msg i <= i + 5)%nat /\
  forall j, (i < j <= colorSkip msg i)%nat ->
            isDigit msg j = true \/ msg !! j = Some ","%char.
Proof.
  intros H1. unfold colorSkip.
  destruct (isDigit msg (i + 1 + 1)) eqn:H2.
  - destruct (isDigit msg (i + 1 + 1 + 2)) eqn:H3;
      [case_bool_decide as Hc|]; simpl;
      [destruct (isDigit msg (i + 1 + 1 + 2 + 1)) eqn:H4| |];
      (split; [lia|]); intros j Hj.
    + assert (j = i + 1 \/ j = i + 1 + 1 \/ j = i + 1 + 1 + 1 \/
              j = i + 1 + 1 + 2 \/ j = i + 1 + 1 + 2 + 1)%nat
        as [->|[->|[->|[->| ->]]]] by lia; auto.
    + assert (j = i + 1 \/ j = i + 1 + 1 \/ j = i + 1 + 1 + 1 \/
              j = i + 1 + 1 + 2)%nat as [->|[->|[->| ->]]] by lia; auto.
    + assert (j = i + 1 \/ j = i + 1 + 1)%nat as [->| ->] by lia; auto.
    + assert (j = i + 1 \/ j = i + 1 + 1)%nat as [->| ->] by lia; auto.
  - destruct (isDigit msg (i + 1 + 2)) eqn:H3;
      [case_bool_decide as Hc|]; simpl;
      [destruct (isDigit msg (i + 1 + 2 + 1)) eqn:H4| |];
      (split; [lia|]); intros j Hj.
    + assert (j = i + 1 \/ j = i + 1 + 1 \/ j = i + 1 + 2 \/ j = i + 1 + 2 + 1)%nat
        as [->|[->|[->| ->]]] by lia; auto.
    + assert (j = i + 1 \/ j = i + 1 + 1 \/ j = i + 1 + 2)%nat
        as [->|[->| ->]] by lia; auto.
    + assert (j = i + 1)%nat as -> by lia; auto.
    + assert (j = i + 1)%nat as -> by lia; auto.
Qed.

(** The colour code 12,4 before the letter x. *)
Lemma colorSkip_only_digits_witness :
  let msg := fColor :: bs "12,4x" in
  isDigit msg 1 = true /\ colorSkip msg 0 = 4%nat /\
  (isDigit msg 3 = true \/ msg !! 3%nat = Some ","%char).
Proof.
  split; [reflexivity|]. split; [reflexivity|].
  destruct (colorSkip_only_digits (fColor :: bs "12,4x") 0) as [_ H];
    [reflexivity|].
  apply (H 3%nat). vm_compute. lia.
Defined.

(** X8.  A colour marker with two digits is dropped with its two digits,
    and no more, when the text after them does not start with a comma: a
    third digit is kept as text. *)
Theorem discordFormat_color_two_digits (p1 p2 : gostring) (d1 d2 : ascii) :
  Forall plainByte p1 -> Forall plainByte p2 ->
  isDigit [d1; d2] 0 = true -> isDigit [d1; d2] 1 = true ->
  p2 !! 0%nat <> Some ","%char ->
  discordFormat (p1 ++ fColor :: d1 :: d2 :: p2) = p1 ++ p2.
Proof.
  intros Hp1 Hp2 Hd1 Hd2 Hcomma. rewrite discordFormat_scan, <- app_assoc.
  destruct (scan_plain_prefix p1 Hp1 ((fColor :: d1 :: d2 :: p2) ++ [fReset]) 0%nat)
    as [u1 ->].
  f_equal. rewrite <- !app_comm_cons. cbn [scan andb].
  set (ul := if (u1 <=? 0)%nat then _ else _).
  set (t := p2 ++ [fReset]).
  assert (Hsw : switchByte (fColor :: d1 :: d2 :: t) 0 fColor noStyle false ul
                = Continue 2).
  { change (switchByte (fColor :: d1 :: d2 :: t) 0 fColor noStyle false ul)
      with (if negb (isDigit [d1; d2] 0) then Continue 0
            else Continue (colorSkip (fColor :: d1 :: d2 :: t) 0)).
    rewrite Hd1. cbn [negb]. f_equal. unfold colorSkip.
    change (isDigit (fColor :: d1 :: d2 :: t) (0 + 1 + 1)) with (isDigit [d1; d2] 1).
    rewrite Hd2.
    change ((fColor :: d1 :: d2 :: t) !! (0 + 1 + 1 + 1)%nat) with (t !! 0%nat).
    rewrite bool_decide_eq_false_2; [by rewrite andb_false_r|].
    unfold t. destruct p2; [discriminate | exact Hcomma]. }
  rewrite Hsw. cbv beta iota. unfold t.
  destruct p2 as [|c p2]; [apply scan_end|].
  rewrite scan_plain by done.
  by rewrite transition_same, closeMarkers_noStyle, app_nil_r.
Qed.

(** The colour 04, then the text 2 pm: the digit 2 is kept. *)
Lemma discordFormat_color_two_digits_witness :
  discordFormat (bs "at " ++ fColor :: "0"%char :: "4"%char :: bs "2 pm") = bs "at 2 pm".
Proof.
  rewrite discordFormat_color_two_digits;
    [reflexivity | | | reflexivity | reflexivity | discriminate];
    apply (bool_decide_unpack _); vm_compute; exact I.
Defined.

(** ** [discordTransform] *)

Lemma discordTransform_unfold (env : Env) (channel msg : gostring) (fuel : nat) :
  (length msg <= fuel)%nat ->
  discordTransformLoop fuel env channel msg = discordTransform env channel msg.
Proof. intros H. by apply discordTransformLoop_fuel. Qed.

Lemma discordTransform_step (env : Env) (channel pre tail : gostring) :
  pre <> [] -> "`"%char ∉ pre ->
  discordTransform env channel (pre ++ "`"%char :: tail) =
    let rawEnd :=
      match IndexByte tail "`"%char with
      | Some k => (length pre + 1 + k)%nat
      | None => length pre
      end in
    discordTransformPart env channel pre ++
    take (rawEnd + 1 - length pre) ("`"%char :: tail) ++
    discordTransform env channel (drop (rawEnd - length pre) tail).
Proof.
  intros Hne Hpre. unfold discordTransform at 1.
  rewrite length_app. cbn [length].
  replace (length pre + S (length tail))%nat with (S (length pre + length tail)) by lia.
  cbn [discordTransformLoop].
  destruct (pre ++ "`"%char :: tail) as [|c0 m0] eqn:Hm; [by destruct pre|].
  cbn [isEmpty]. rewrite <- Hm. clear c0 m0 Hm.
  rewrite (IndexByte_app_first pre tail _ Hpre).
  assert (Hdrop : forall k, drop (length pre + k) (pre ++ "`"%char :: tail)
                            = drop k ("`"%char :: tail)).
  { intros k. rewrite drop_app_ge by lia. f_equal. lia. }
  rewrite (Hdrop 1%nat). cbn [drop].
  rewrite drop_0.
  replace (0 <? length pre)%nat with true
    by (symmetry; apply Nat.ltb_lt; destruct pre; [done | simpl; lia]).
  rewrite take_app_length.
  rewrite (drop_app_length pre ("`"%char :: tail)). cbv zeta.
  set (rawEnd := match IndexByte tail "`"%char with Some k => _ | None => _ end).
  assert (Hr : (length pre <= rawEnd <= length pre + length tail)%nat).
  { unfold rawEnd. destruct (IndexByte tail "`"%char) as [k|] eqn:Hk; [|lia].
    apply IndexByte_Some_lookup, lookup_lt_Some in Hk. lia. }
  do 2 f_equal.
  replace (rawEnd + 1)%nat with (length pre + S (rawEnd - length pre))%nat by lia.
  rewrite (Hdrop (S (rawEnd - length pre))). cbn [drop].
  apply discordTransform_unfold. rewrite length_drop. lia.
Qed.

(** X9.  When a non-empty text without backtick stands before a backtick,
    [discordTransform] hands that text to [discordTransformPart] and copies
    what follows: a span that is closed is copied up to its closing
    backtick, a backtick that is not closed is copied alone, and
    [discordTransform] goes on with the text after it.  A text that starts
    with a backtick, be it the whole message or what is left of it after a
    span, is handed to [discordTransformPart] whole, its spans included:
    a span is protected only when text stands before it.  A text without
    backtick goes to [discordTransformPart] whole, and an empty text gives
    the empty text. *)
Theorem discordTransform_spans (env : Env) (channel pre : gostring) :
  "`"%char ∉ pre ->
  (discordTransform env channel pre =
     if isEmpty pre then [] else discordTransformPart env channel pre) /\
  (forall rest,
     discordTransform env channel ("`"%char :: rest) =
       discordTransformPart env channel ("`"%char :: rest)) /\
  (pre <> [] ->
   (forall mid post, "`"%char ∉ mid ->
      discordTransform env channel (pre ++ "`"%char :: mid ++ "`"%char :: post) =
        discordTransformPart env channel pre ++ "`"%char :: mid ++ "`"%char ::
        discordTransform env channel post) /\
   (forall rest, "`"%char ∉ rest ->
      discordTransform env channel (pre ++ "`"%char :: rest) =
        discordTransformPart env channel pre ++ "`"%char ::
        discordTransform env channel rest)).
Proof.
  intros Hpre. split; [|split; [|intros Hne; split]].
  - unfold discordTransform. destruct pre as [|c pre]; [reflexivity|].
    cbn [length discordTransformLoop isEmpty].
    apply IndexByte_None in Hpre. by rewrite Hpre.
  - intros rest. unfold discordTransform.
    cbn [length discordTransformLoop isEmpty IndexByte].
    by rewrite decide_True by reflexivity.
  - intros mid post Hmid. rewrite discordTransform_step by done.
    rewrite (IndexByte_app_first mid post _ Hmid). cbv zeta.
    replace (length pre + 1 + length mid + 1 - length pre)%nat
      with (S (S (length mid))) by lia.
    replace (length pre + 1 + length mid - length pre)%nat
      with (S (length mid)) by lia.
    f_equal. cbn [take]. rewrite take_app_ge by lia.
    replace (S (length mid) - length mid)%nat with 1%nat by lia. cbn [take].
    rewrite drop_app_ge by lia.
    replace (S (length mid) - length mid)%nat with 1%nat by lia. cbn [drop].
    rewrite drop_0, take_0. simpl. by rewrite <- app_assoc.
  - intros rest Hrest. rewrite discordTransform_step by done.
    apply IndexByte_None in Hrest. rewrite Hrest. cbv zeta.
    replace (length pre + 1 - length pre)%nat with 1%nat by lia.
    rewrite Nat.sub_diag, drop_0. cbn [take]. rewrite take_0. reflexivity.
Qed.

(** A span after the word hi is copied; the same span at the start of the
    message goes to [discordTransformPart] with the rest. *)
Lemma discordTransform_spans_witness :
  let env := demoEnv [] in
  discordTransform env (bs "D1") (bs "hi `:x:` you") =
    discordTransformPart env (bs "D1") (bs "hi ") ++ bs "`:x:`" ++
    discordTransformPart env (bs "D1") (bs " you") /\
  discordTransform env (bs "D1") (bs "`:x:` hi") =
    discordTransformPart env (bs "D1") (bs "`:x:` hi").
Proof.
  destruct (discordTransform_spans (demoEnv []) (bs "D1") (bs "hi "))
    as (_ & Hlead & H).
  { apply (bool_decide_unpack _). vm_compute. exact I. }
  destruct H as [Hspan _]; [discriminate|].
  intros env. split; [|exact (Hlead (bs ":x:` hi"))].
  etrans; [apply (Hspan (bs ":x:") (bs " you"))|].
  - apply (bool_decide_unpack _). vm_compute. exact I.
  - vm_compute. reflexivity.
Defined.
(** X10.  Cutting the text at the backtick spans loses nothing: when
    [discordTransformPart] leaves every text as it is, because there is
    nothing to resolve, [discordTransform] gives the text back. *)
Theorem discordTransform_identity (env : Env) (channel msg : gostring) :
  (forall s, discordTransformPart env channel s = s) ->
  discordTransform env channel msg = msg.
Proof.
  intros Hid. unfold discordTransform.
  assert (H : forall fuel m, (length m <= fuel)%nat ->
                discordTransformLoop fuel env channel m = m).
  { induction fuel as [|fuel IH]; intros m Hm.
    - destruct m; [done | simpl in Hm; lia].
    - cbn [discordTransformLoop].
      destruct (isEmpty m) eqn:He; [by destruct m|].
      destruct (IndexByte m "`"%char) as [rawStart|] eqn:Hs; [|apply Hid].
      cbv zeta. destruct (0 <? rawStart)%nat eqn:Hpos; [|apply Hid].
      apply Nat.ltb_lt in Hpos.
      pose proof (lookup_lt_Some _ _ _ (IndexByte_Some_lookup _ _ _ Hs)) as Hlt.
      set (rawEnd := match IndexByte (drop (rawStart + 1) m) "`"%char with
                     | Some k => (rawStart + 1 + k)%nat
                     | None => rawStart
                     end).
      assert (Hr : (rawStart <= rawEnd)%nat).
      { subst rawEnd. destruct (IndexByte (drop (rawStart + 1) m) "`"%char); lia. }
      rewrite Hid. rewrite IH by (rewrite length_drop; lia).
      rewrite <- (take_drop rawStart m) at 4. f_equal.
      rewrite <- (take_drop (rawEnd + 1 - rawStart) (drop rawStart m)) at 2.
      f_equal. rewrite drop_drop. f_equal. lia. }
  by apply H.
Qed.

Lemma discordTransform_identity_witness :
  discordTransform (demoEnv []) (bs "D1") (bs "see `a` and `b") = bs "see `a` and `b".
Proof. apply discordTransform_identity. reflexivity. Defined.
(** ** The handlers of the Discord side *)

Lemma wrote_nil (w : World) : wrote w [] = w.
Proof. destruct w. unfold wrote. simpl. by rewrite app_nil_r. Qed.

Lemma wrote_app (w : World) (a b : list irc.Message) :
  wrote (wrote w a) b = wrote w (a ++ b).
Proof. unfold wrote. simpl. by rewrite <- app_assoc. Qed.

Lemma called_nil (w : World) : called w [] = w.
Proof. destruct w. unfold called. simpl. by rewrite app_nil_r. Qed.

Lemma called_app (w : World) (a b : list discordgo.Call) :
  called (called w a) b = called w (a ++ b).
Proof. unfold called. simpl. by rewrite <- app_assoc. Qed.

Lemma forEach_wrote {A : Type} (f : A -> M unit) (g : A -> list irc.Message)
    (l : list A) :
  (forall x w, f x w = Done tt (wrote w (g x))) ->
  forall w, forEach l f w = Done tt (wrote w (concat (map g l))).
Proof.
  intros Hf. induction l as [|x l IH]; intros w; simpl.
  - by rewrite wrote_nil.
  - unfold mbind, M_bind. by rewrite Hf, IH, wrote_app.
Qed.

Lemma forEach_called {A : Type} (f : A -> M unit) (g : A -> list discordgo.Call)
    (l : list A) :
  (forall x w, f x w = Done tt (called w (g x))) ->
  forall w, forEach l f w = Done tt (called w (concat (map g l))).
Proof.
  intros Hf. induction l as [|x l IH]; intros w; simpl.
  - by rewrite called_nil.
  - unfold mbind, M_bind. by rewrite Hf, IH, called_app.
Qed.

Lemma concat_map_singleton {A B : Type} (g : A -> B) (l : list A) :
  concat (map (fun x => [g x]) l) = map g l.
Proof. induction l as [|x l IH]; simpl; [done | by rewrite IH]. Qed.

(** What [ircWrite] does, by cases on the client and on the capability. *)
Lemma ircWrite_cases (m : irc.Message) (w : World) :
  ircWrite m w =
    Done tt (wrote w
      match ircClient w with
      | None => []
      | Some c =>
        if bool_decide (irc.Command m = bs "REDACT") &&
           negb (irc.CapEnabled c (bs "draft/message-redaction"))
        then [] else [m]
      end).
Proof.
  unfold ircWrite, mbind, M_bind, getWorld.
  destruct (ircClient w) as [c|]; [|by rewrite wrote_nil].
  destruct (_ && _); [by rewrite wrote_nil | reflexivity].
Qed.

Lemma wrote_ircClient (w : World) (out : list irc.Message) :
  ircClient (wrote w out) = ircClient w.
Proof. reflexivity. Qed.






Lemma forEach_ircWrite {A : Type} (mk : A -> irc.Message) (l : list A)
    (c : irc.Client) (w : World) :
  ircClient w = Some c ->
  (forall x, x ∈ l -> irc.Command (mk x) = bs "REDACT" ->
             irc.CapEnabled c (bs "draft/message-redaction") = true) ->
  forEach l (fun x => ircWrite (mk x)) w = Done tt (wrote w (map mk l)).
Proof.
  revert w. induction l as [|x l IH]; intros w Hc Hcap; simpl.
  - by rewrite wrote_nil.
  - unfold mbind, M_bind. rewrite ircWrite_cases, Hc.
    assert (Hx : bool_decide (irc.Command (mk x) = bs "REDACT") &&
                 negb (irc.CapEnabled c (bs "draft/message-redaction")) = false).
    { destruct (bool_decide_reflect (irc.Command (mk x) = bs "REDACT")) as [Hr|];
        [|done].
      rewrite (Hcap x) by (done || constructor). reflexivity. }
    rewrite Hx, IH, wrote_app; [done | done |].
    intros y Hy. apply Hcap. by constructor.
Qed.

Lemma forEach_ircWrite_dropped {A : Type} (mk : A -> irc.Message) (l : list A)
    (c : irc.Client) (w : World) :
  ircClient w = Some c ->
  irc.CapEnabled c (bs "draft/message-redaction") = false ->
  (forall x, irc.Command (mk x) = bs "REDACT") ->
  forEach l (fun x => ircWrite (mk x)) w = Done tt w.
Proof.
  intros Hc Hcap Hmk. induction l as [|x l IH]; simpl; [done|].
  unfold mbind, M_bind. rewrite ircWrite_cases, Hc, Hcap.
  rewrite bool_decide_eq_true_2 by apply Hmk. simpl. by rewrite wrote_nil.
Qed.

(** X12.  A deletion on Discord by somebody else, in a bridged channel,
    writes one [REDACT] to the mapped IRC channel for every IRC message
    recorded for the Discord message, in the order of recording, when the
    client has negotiated [draft/message-redaction]; without the capability
    it writes nothing.  The tables keep the deleted message. *)
Theorem discordDelete_redacts (env : Env) (author : option gostring)
    (channelID id dc ic : gostring) (c : irc.Client) (w : World) :
  author <> Some (stateUserID env) ->
  List.find (fun e => bool_decide (fst e = channelID)) (cfg_Channels env)
    = Some (dc, ic) ->
  ircClient w = Some c ->
  discordDelete env author channelID id w =
    Done tt (wrote w
      (if irc.CapEnabled c (bs "draft/message-redaction")
       then map (fun ircID => outMessage (bs "REDACT") [ic; ircID])
                (idDiscordIRC w !!! id)
       else [])).
Proof.
  intros Hauthor Hfind Hc. unfold discordDelete.
  rewrite bool_decide_eq_false_2 by done. rewrite Hfind.
  unfold mbind, M_bind, getWorld. cbn beta iota.
  destruct (irc.CapEnabled c _) eqn:Hcap.
  - by apply (forEach_ircWrite _ _ c).
  - rewrite wrote_nil. by apply (forEach_ircWrite_dropped _ _ c).
Qed.

(** A deletion without author, of a message recorded with two IRC
    messages. *)
Lemma discordDelete_redacts_witness :
  discordDelete (demoEnv []) None (bs "D1") (bs "d1")
    (readyWorld ∅ {[bs "d1" := [bs "i1"; bs "i2"]]}) =
  Done tt (wrote (readyWorld ∅ {[bs "d1" := [bs "i1"; bs "i2"]]})
             [outMessage (bs "REDACT") [bs "#chan"; bs "i1"];
              outMessage (bs "REDACT") [bs "#chan"; bs "i2"]]).
Proof.
  rewrite (discordDelete_redacts (demoEnv []) None (bs "D1") (bs "d1")
             (bs "D1") (bs "#chan") demoClient);
    [vm_compute; reflexivity | discriminate | reflexivity | reflexivity].
Defined.



(** ** The text of the lines that [discordMessage] writes *)







(** ** [ircHandler] *)

Lemma index_last {A : Type} (l : list A) (x : A) :
  index (l ++ [x]) (Z.of_nat (length (l ++ [x])) - 1) = mret x.
Proof.
  unfold index. rewrite length_app. cbn [length].
  destruct (Z.ltb_spec (Z.of_nat (length l + 1) - 1) 0) as [H|_]; [lia|].
  replace (Z.to_nat (Z.of_nat (length l + 1) - 1)) with (length l) by lia.
  by rewrite list_lookup_middle.
Qed.

(** The welcome reply. *)
Lemma ircHandshake_001 (env : Env) (c : irc.Client) (m : irc.Message) (w : World) :
  irc.Command m = bs "001" ->
  ircHandshake env c m w =
    Done true
      (mkWorld (idIRCDiscord w) (idDiscordIRC w) (ircReady w) (Some c)
         (ircOut w ++ map (fun e => outMessage (bs "JOIN") [snd e]) (cfg_Channels env))
         (discordOut w)).
Proof.
  intros Hcmd. unfold ircHandshake. rewrite Hcmd.
  rewrite decide_True by reflexivity.
  unfold mbind, M_bind.
  rewrite (forEach_wrote _ (fun e => [outMessage (bs "JOIN") [snd e]]))
    by reflexivity.
  by rewrite concat_map_singleton.
Qed.

(** The tokens of a [005] reply that the handler answers. *)
Lemma ircHandshake_005 (env : Env) (c : irc.Client) (m : irc.Message) (w : World) :
  irc.Command m = bs "005" ->
  exists modes, ircHandshake env c m w =
    Done true (wrote w (modes ++ [outMessage (bs "PING") [bs "ready"]])).
Proof.
  intros Hcmd. unfold ircHandshake. rewrite Hcmd.
  rewrite decide_False by discriminate. rewrite decide_True by reflexivity.
  unfold mbind, M_bind.
  destruct (2 <? length (irc.Params m))%nat.
  - eexists.
    rewrite (forEach_wrote _ (fun param =>
               let '(key, value) := Cut param "="%char in
               if decide (key = bs "BOT")
               then [outMessage (bs "MODE") [irc.CurrentNick c; bs "+" ++ value]]
               else [])).
    + unfold clientWrite, modify. cbn [wrote ircOut idIRCDiscord idDiscordIRC
        ircReady ircClient discordOut]. unfold wrote. by rewrite <- app_assoc.
    + intros x w0. destruct (Cut x "="%char) as [key value].
      destruct (decide (key = bs "BOT")); [reflexivity | by rewrite wrote_nil].
  - exists []. reflexivity.
Qed.

Lemma ircHandshake_PONG (env : Env) (c : irc.Client) (m : irc.Message) (w : World)
    (params : list gostring) (last : gostring) :
  irc.Command m = bs "PONG" -> irc.Params m = params ++ [last] ->
  ircHandshake env c m w =
    Done true
      (if decide (last = bs "ready")
       then mkWorld (idIRCDiscord w) (idDiscordIRC w) true (ircClient w)
                    (ircOut w) (discordOut w)
       else w).
Proof.
  intros Hcmd Hparams. unfold ircHandshake. rewrite Hcmd, Hparams.
  do 2 rewrite decide_False by discriminate. rewrite decide_True by reflexivity.
  rewrite index_last. unfold mbind, M_bind, mret, M_ret.
  by destruct (decide (last = bs "ready")).
Qed.

Lemma ircHandshake_other (env : Env) (c : irc.Client) (m : irc.Message) (w : World) :
  irc.Command m <> bs "001" -> irc.Command m <> bs "005" ->
  irc.Command m <> bs "PONG" ->
  ircHandshake env c m w = Done false w.
Proof.
  intros H1 H5 Hp. unfold ircHandshake. by do 3 rewrite decide_False by done.
Qed.

(** The tables and the calls made on Discord are out of reach of the first
    [switch]. *)
Lemma ircHandshake_frame (env : Env) (c : irc.Client) (m : irc.Message) (w : World) :
  (irc.Command m = bs "PONG" -> irc.Params m <> []) ->
  exists handled w',
    ircHandshake env c m w = Done handled w' /\
    discordOut w' = discordOut w /\ idIRCDiscord w' = idIRCDiscord w /\
    idDiscordIRC w' = idDiscordIRC w /\
    (handled = false -> w' = w).
Proof.
  intros Hpong.
  destruct (decide (irc.Command m = bs "001")) as [H1|H1];
    [|destruct (decide (irc.Command m = bs "005")) as [H5|H5];
      [|destruct (decide (irc.Command m = bs "PONG")) as [Hp|Hp]]].
  - rewrite ircHandshake_001 by done. by eexists _, _.
  - destruct (ircHandshake_005 env c m w H5) as [modes ->]. by eexists _, _.
  - destruct (exists_last (Hpong Hp)) as (params & last & Hparams).
    rewrite (ircHandshake_PONG env c m w params last) by done.
    eexists _, _. split; [reflexivity|]. by destruct (decide _).
  - rewrite ircHandshake_other by done. by eexists _, _.
Qed.

Lemma ircHandler_handled (env : Env) (c : irc.Client) (m : irc.Message)
    (w w' : World) :
  irc.Name m <> irc.CurrentNick c ->
  ircHandshake env c m w = Done true w' ->
  ircHandler env c m w = Done tt w'.
Proof.
  intros Hname Hh. unfold ircHandler.
  rewrite bool_decide_eq_false_2 by done. cbn [andb].
  unfold mbind at 1 2, M_bind at 1 2, getWorld. cbn beta iota. rewrite Hh.
  reflexivity.
Qed.

(** X14.  Until the IRC side is ready, [ircHandler] makes no call on
    Discord and leaves the correlation tables alone, whatever the message
    is; it returns, unless the message is a [PONG] without parameter. *)
Theorem ircHandler_waits_for_ready (env : Env) (c : irc.Client)
    (m : irc.Message) (w : World) :
  ircReady w = false ->
  (irc.Command m = bs "PONG" -> irc.Params m <> []) ->
  exists w',
    ircHandler env c m w = Done tt w' /\
    discordOut w' = discordOut w /\
    idIRCDiscord w' = idIRCDiscord w /\
    idDiscordIRC w' = idDiscordIRC w.
Proof.
  intros Hready Hpong. unfold ircHandler.
  destruct (_ && _); [by exists w|].
  unfold mbind at 1 2, M_bind at 1 2, getWorld. cbn beta iota.
  destruct (ircHandshake_frame env c m w Hpong)
    as (handled & w' & -> & Hd & Hi & Hdi & Hsame).
  unfold mbind at 1, M_bind at 1. cbn beta iota.
  destruct handled; [by exists w'|].
  rewrite (Hsame eq_refl), Hready. by exists w.
Qed.

(** A line of [alice] that arrives before the bridge is ready. *)
Lemma ircHandler_waits_for_ready_witness :
  exists w',
    ircHandler (demoEnv (bs "d1")) demoClient (demoPrivmsg ∅ (bs "hi")) emptyWorld
      = Done tt w' /\
    discordOut w' = [] /\ idIRCDiscord w' = ∅ /\ idDiscordIRC w' = ∅.
Proof.
  apply (ircHandler_waits_for_ready (demoEnv (bs "d1")) demoClient
           (demoPrivmsg ∅ (bs "hi")) emptyWorld); [reflexivity | discriminate].
Defined.

(** X15.  The bridge becomes ready on the [PONG] whose last parameter is
    [ready], the answer to the [PING] it sends after the [005] replies, and
    on no other [PONG]; a [PONG] without parameter makes the handler
    panic. *)
Theorem ircHandler_pong (env : Env) (c : irc.Client) (m : irc.Message)
    (w : World) :
  irc.Name m <> irc.CurrentNick c ->
  irc.Command m = bs "PONG" ->
  match last (irc.Params m) with
  | None => ircHandler env c m w = Panicked
  | Some token =>
    ircHandler env c m w =
      Done tt (if decide (token = bs "ready")
               then mkWorld (idIRCDiscord w) (idDiscordIRC w) true (ircClient w)
                            (ircOut w) (discordOut w)
               else w)
  end.
Proof.
  intros Hname Hcmd.
  destruct (irc.Params m) as [|p ps] eqn:Hparams.
  - cbn [last]. unfold ircHandler.
    rewrite bool_decide_eq_false_2 by done. cbn [andb].
    unfold mbind at 1 2, M_bind at 1 2, getWorld. cbn beta iota.
    unfold ircHandshake. rewrite Hcmd, Hparams.
    do 2 rewrite decide_False by discriminate. rewrite decide_True by reflexivity.
    reflexivity.
  - destruct (exists_last (l := p :: ps)) as (params & token & Heq); [done|].
    rewrite Heq, last_snoc. apply ircHandler_handled; [done|].
    apply (ircHandshake_PONG env c m w params token); [done | congruence].
Qed.

Lemma ircHandler_pong_witness :
  ircHandler (demoEnv []) demoClient
    (irc.mkMessage ∅ (bs "irc.example") (bs "PONG") [bs "irc.example"; bs "ready"])
    emptyWorld =
  Done tt (mkWorld ∅ ∅ true None [] []).
Proof.
  exact (ircHandler_pong (demoEnv []) demoClient
           (irc.mkMessage ∅ (bs "irc.example") (bs "PONG")
              [bs "irc.example"; bs "ready"])
           emptyWorld ltac:(discriminate) eq_refl).
Defined.
Lemma index_0 {A : Type} (x : A) (l : list A) : index (x :: l) 0 = mret x.
Proof. reflexivity. Qed.

Lemma index_1 {A : Type} (x y : A) (l : list A) : index (x :: y :: l) 1 = mret y.
Proof. reflexivity. Qed.

Lemma bind_ret {A B : Type} (x : A) (k : A -> M B) (w : World) :
  (mret x ≫= k) w = k x w.
Proof. reflexivity. Qed.

(** Once ready, a [PRIVMSG] goes to the second [switch]. *)
Lemma ircHandler_privmsg (env : Env) (c : irc.Client) (m : irc.Message) (w : World) :
  ircReady w = true -> irc.Command m = bs "PRIVMSG" ->
  ircHandler env c m w =
    ircPrivmsg env c m (irc.Tags m !!! bs "msgid")
      (ircReplyID (idIRCDiscord w) (irc.Tags m !!! bs "+draft/reply")) w.
Proof.
  intros Hready Hcmd. unfold ircHandler. rewrite Hcmd.
  rewrite (bool_decide_eq_true_2 (bs "PRIVMSG" = bs "PRIVMSG")) by reflexivity.
  rewrite andb_false_r.
  unfold mbind at 1 2, M_bind at 1 2, getWorld. cbn beta iota.
  rewrite ircHandshake_other by (rewrite Hcmd; discriminate).
  unfold mbind at 1, M_bind at 1. cbn beta iota. rewrite Hready. cbn [negb orb].
  do 7 rewrite decide_False by discriminate.
  by rewrite decide_True by reflexivity.
Qed.

(** X16.  The bridge learns the IRC message ID of a message it has written
    itself from the echo of that message: once ready, a [PRIVMSG] under the
    bridge's own nick to a bridged channel, tagged with the Discord message
    ID, adds the pair of IDs to both tables and relays nothing; without the
    tag it changes nothing.  The text of the echo is not read. *)
Theorem ircHandler_learns_echo (env : Env) (c : irc.Client) (w : World)
    (tags : gmap gostring gostring) (target : gostring) (rest : list gostring) :
  ircReady w = true ->
  discordChannel env target <> [] ->
  ircHandler env c
    (irc.mkMessage tags (irc.CurrentNick c) (bs "PRIVMSG") (target :: rest)) w =
  Done tt (if isEmpty (tags !!! bs "+discord") then w
           else recordEcho (tags !!! bs "msgid") (tags !!! bs "+discord") w).
Proof.
  intros Hready Hdc. rewrite ircHandler_privmsg by done.
  unfold ircPrivmsg. cbn [irc.Params irc.Name irc.Tags].
  rewrite index_0, bind_ret. cbv zeta.
  destruct (discordChannel env target) as [|d0 dc]; [done|]. cbn [isEmpty].
  rewrite decide_True by reflexivity.
  by destruct (tags !!! bs "+discord").
Qed.

(** The echo of a line written for the Discord message [d7], which the
    server has given the ID [i9]. *)
Lemma ircHandler_learns_echo_witness :
  ircHandler (demoEnv []) demoClient
    (irc.mkMessage {[bs "msgid" := bs "i9"; bs "+discord" := bs "d7"]} (bs "bridge")
       (bs "PRIVMSG") [bs "#chan"; bs "<bob> hi"])
    (readyWorld ∅ ∅) =
  Done tt (recordEcho (bs "i9") (bs "d7") (readyWorld ∅ ∅)).
Proof.
  rewrite (ircHandler_learns_echo (demoEnv []) demoClient);
    [reflexivity | reflexivity | discriminate].
Defined.

(** X17.  Once ready, a [REDACT] of somebody else in a bridged channel
    deletes, in the mapped Discord channel, every Discord message recorded
    for the redacted IRC message, in the order of recording; a message
    without record gives no call.  Nothing is written to IRC and the tables
    keep the redacted message. *)
Theorem ircHandler_redact (env : Env) (c : irc.Client) (w : World)
    (tags : gmap gostring gostring) (name target redacted : gostring)
    (rest : list gostring) :
  ircReady w = true -> name <> irc.CurrentNick c ->
  discordChannel env target <> [] ->
  ircHandler env c
    (irc.mkMessage tags name (bs "REDACT") (target :: redacted :: rest)) w =
  Done tt (called w (map (discordgo.ChannelMessageDelete (discordChannel env target))
                         (idIRCDiscord w !!! redacted))).
Proof.
  intros Hready Hname Hdc. unfold ircHandler. cbn [irc.Params irc.Name irc.Tags irc.Command].
  rewrite bool_decide_eq_false_2 by done. cbn [andb].
  unfold mbind at 1 2, M_bind at 1 2, getWorld. cbn beta iota.
  rewrite ircHandshake_other by discriminate.
  unfold mbind at 1, M_bind at 1. cbn beta iota. rewrite Hready. cbn [negb orb].
  do 5 rewrite decide_False by discriminate.
  rewrite decide_True by reflexivity.
  rewrite index_0, bind_ret. cbv zeta.
  destruct (discordChannel env target) as [|d0 dc] eqn:Hd; [done|]. cbn [isEmpty].
  rewrite index_1, bind_ret.
  unfold mbind at 1, M_bind at 1, getWorld. cbn beta iota.
  rewrite (forEach_called _ (fun id => [discordgo.ChannelMessageDelete (d0 :: dc) id]))
    by reflexivity.
  by rewrite concat_map_singleton.
Qed.

Lemma ircHandler_redact_witness :
  ircHandler (demoEnv []) demoClient
    (irc.mkMessage ∅ (bs "alice") (bs "REDACT") [bs "#chan"; bs "i1"])
    (readyWorld {[bs "i1" := [bs "d1"; bs "d2"]]} ∅) =
  Done tt (called (readyWorld {[bs "i1" := [bs "d1"; bs "d2"]]} ∅)
             [discordgo.ChannelMessageDelete (bs "D1") (bs "d1");
              discordgo.ChannelMessageDelete (bs "D1") (bs "d2")]).
Proof.
  rewrite (ircHandler_redact (demoEnv []) demoClient);
    [vm_compute; reflexivity | reflexivity | discriminate | discriminate].
Defined.

(** X18.  A message that went from Discord to IRC is redacted on IRC when
    it is deleted on Discord: once the echo of the IRC copy has told the
    bridge its IRC message ID, the deletion of the Discord message writes a
    [REDACT] for every IRC message recorded before and, last, one for that
    copy. *)
Theorem echo_then_delete (env : Env) (c : irc.Client) (w : World)
    (tags : gmap gostring gostring) (ic dc msgID discordID : gostring)
    (rest : list gostring) (author : option gostring) :
  ircReady w = true ->
  ircClient w = Some c ->
  irc.CapEnabled c (bs "draft/message-redaction") = true ->
  discordChannel env ic <> [] ->
  List.find (fun e => bool_decide (fst e = dc)) (cfg_Channels env) = Some (dc, ic) ->
  tags !!! bs "msgid" = msgID ->
  tags !!! bs "+discord" = discordID ->
  discordID <> [] ->
  author <> Some (stateUserID env) ->
  (ircHandler env c (irc.mkMessage tags (irc.CurrentNick c) (bs "PRIVMSG") (ic :: rest)) ;;
   discordDelete env author dc discordID) w =
  Done tt (wrote (recordEcho msgID discordID w)
             (map (fun ircID => outMessage (bs "REDACT") [ic; ircID])
                  (idDiscordIRC w !!! discordID ++ [msgID]))).
Proof.
  intros Hready Hc Hcap Hic Hfind HmsgID HdiscordID Hd Hauthor.
  unfold mbind at 1, M_bind at 1. rewrite ircHandler_privmsg by done.
  unfold ircPrivmsg. cbn [irc.Params irc.Name irc.Tags].
  rewrite index_0, bind_ret. cbv zeta.
  destruct (discordChannel env ic) as [|c0 dc0]; [done|]. cbn [isEmpty].
  rewrite decide_True by reflexivity.
  rewrite HmsgID, HdiscordID.
  destruct discordID as [|d0 d] eqn:Hid; [done|]. cbn [isEmpty negb modify].
  rewrite <- Hid. unfold discordDelete.
  rewrite bool_decide_eq_false_2 by done. rewrite Hfind.
  unfold mbind, M_bind, getWorld. cbn beta iota.
  rewrite (forEach_ircWrite _ _ c) by done.
  destruct (recordEcho_appends msgID discordID w) as [_ H]. by rewrite H.
Qed.

(** The echo of the line written for the Discord message [d7], then the
    deletion of [d7]. *)
Lemma echo_then_delete_witness :
  exists w',
    (ircHandler (demoEnv []) demoClient
       (irc.mkMessage {[bs "msgid" := bs "i9"; bs "+discord" := bs "d7"]} (bs "bridge")
          (bs "PRIVMSG") [bs "#chan"; bs "<bob> hi"]) ;;
     discordDelete (demoEnv []) None (bs "D1") (bs "d7")) (readyWorld ∅ ∅)
      = Done tt w' /\
    ircOut w' = [outMessage (bs "REDACT") [bs "#chan"; bs "i9"]].
Proof.
  eexists. split.
  - apply (echo_then_delete (demoEnv []) demoClient (readyWorld ∅ ∅)
             {[bs "msgid" := bs "i9"; bs "+discord" := bs "d7"]}
             (bs "#chan") (bs "D1") (bs "i9") (bs "d7") [bs "<bob> hi"] None);
      try discriminate; vm_compute; reflexivity.
  - vm_compute. reflexivity.
Defined.
(** ** From an IRC line to the Discord message *)

Lemma HasPrefix_app (s p : gostring) :
  HasPrefix s p = true -> s = p ++ drop (length p) s.
Proof.
  revert s. induction p as [|a p IH]; intros [|b s]; simpl; try done.
  destruct (decide (a = b)) as [->|]; [|done]. intros H. f_equal. by apply IH.
Qed.

Lemma HasSuffix_app (s t : gostring) :
  HasSuffix s t = true -> exists x, s = x ++ t.
Proof.
  unfold HasSuffix. intros H. apply HasPrefix_app in H.
  exists (rev (drop (length (rev t)) (rev s))).
  rewrite <- (rev_involutive t) at 2. rewrite <- rev_app_distr, <- H.
  by rewrite rev_involutive.
Qed.

Lemma schemeLen_app (s : gostring) (n : nat) :
  schemeLen s = Some n ->
  exists scheme, (scheme = bs "http://" \/ scheme = bs "https://") /\
                 length scheme = n /\ s = scheme ++ drop n s.
Proof.
  unfold schemeLen.
  destruct (HasPrefix s (bs "https://")) eqn:H8;
    [|destruct (HasPrefix s (bs "http://")) eqn:H7; [|done]];
    intros [= <-].
  - exists (bs "https://"). split; [by right|]. split; [reflexivity|].
    by apply HasPrefix_app in H8.
  - exists (bs "http://"). split; [by left|]. split; [reflexivity|].
    by apply HasPrefix_app in H7.
Qed.

(** The shape of a text that [patternMediaLink] matches. *)
Lemma mediaLink_shape (s : gostring) :
  patternMediaLink_MatchString s = true ->
  exists scheme mid ext,
    (scheme = bs "http://" \/ scheme = bs "https://") /\
    ext ∈ mediaExtensions /\ mid <> [] /\
    forallb mediaBody mid = true /\
    s = scheme ++ mid ++ "."%char :: ext.
Proof.
  unfold patternMediaLink_MatchString.
  destruct (schemeLen s) as [n|] eqn:Hn; [|done].
  destruct (schemeLen_app s n Hn) as (scheme & Hscheme & Hlen & Hs).
  intros H. apply existsb_exists in H. destruct H as (ext & Hext & H).
  apply andb_prop in H. destruct H as [H Hmid].
  apply andb_prop in H. destruct H as [Hsuf Hle].
  apply Nat.leb_le in Hle. apply HasSuffix_app in Hsuf. destruct Hsuf as [x Hx].
  set (tail := "."%char :: ext) in *.
  assert (Hxl : (length s = length x + length tail)%nat)
    by (rewrite Hx at 1; apply length_app).
  assert (Hdrop : drop n s = drop n x ++ tail).
  { rewrite Hx at 1. rewrite drop_app_le by lia. reflexivity. }
  exists scheme, (drop n x), ext. repeat split; try done.
  - by apply list_elem_of_In.
  - intros Hnil. apply (f_equal length) in Hnil. rewrite length_drop in Hnil.
    simpl in Hnil. lia.
  - rewrite Hdrop in Hmid.
    replace (length s - n - length tail)%nat with (length (drop n x)) in Hmid
      by (rewrite length_drop; lia).
    by rewrite take_app_length in Hmid.
  - rewrite Hs at 1. by rewrite Hdrop.
Qed.

Lemma mediaBody_not_space (c : ascii) : mediaBody c = true -> isSpaceRE c = false.
Proof. unfold mediaBody. by destruct (isSpaceRE c). Qed.

Lemma isSpaceRE_space : isSpaceRE " "%char = true.
Proof. reflexivity. Qed.

(** No byte of a media link is in the class [\s]. *)
Lemma mediaLink_no_space (s : gostring) :
  patternMediaLink_MatchString s = true ->
  Forall (fun c => isSpaceRE c = false) s.
Proof.
  intros H. destruct (mediaLink_shape s H) as (scheme & mid & ext & Hsch & Hext & _ & Hmid & ->).
  apply Forall_app. split; [|apply Forall_app; split].
  - destruct Hsch as [-> | ->]; repeat constructor.
  - apply Forall_forall. intros c Hc. apply mediaBody_not_space.
    rewrite forallb_forall in Hmid. apply Hmid. by apply list_elem_of_In.
  - unfold mediaExtensions in Hext.
    repeat (apply elem_of_cons in Hext as [-> | Hext]; [repeat constructor|]).
    by apply elem_of_nil in Hext.
Qed.

(** X19.  The test of line 514 is the test of the pattern alone: a text
    that [patternMediaLink] matches has no space, so that the check for a
    space that precedes the match never decides. *)
Theorem mediaLink_space_test_redundant (body : gostring) :
  negb (bool_decide (" "%char ∈ body)) && patternMediaLink_MatchString body =
  patternMediaLink_MatchString body.
Proof.
  destruct (patternMediaLink_MatchString body) eqn:H; [|apply andb_false_r].
  rewrite andb_true_r. apply negb_true_iff, bool_decide_eq_false_2.
  intros Hin. apply mediaLink_no_space in H.
  rewrite Forall_forall in H. by specialize (H _ Hin).
Qed.
(** Closed side conditions, by evaluation. *)
Ltac closed_goal :=
  first [ reflexivity
        | discriminate
        | (apply (bool_decide_unpack _); vm_compute; exact I)
        | (vm_compute; reflexivity)
        | (let H := fresh in intros H; vm_compute in H; discriminate) ].


(** What [discordSend] leaves behind: one more call, with the translated
    text and the reference, and nothing on the IRC side. *)
Lemma discordSend_out (env : Env) (id dc msg replyID : gostring) (w : World) :
  exists w',
    discordSend env id dc msg replyID w = Done tt w' /\
    discordOut w' = discordOut w ++
      [discordgo.ChannelMessageSendComplex dc
         (discordTransform env dc (discordFormat msg))
         (if isEmpty replyID then None else Some (replyID, dc))] /\
    ircOut w' = ircOut w /\ ircReady w' = ircReady w /\ ircClient w' = ircClient w.
Proof.
  unfold discordSend, mbind, M_bind, getWorld, modify. cbn beta iota zeta.
  destruct (sendResult env _) as [mID|]; [destruct (negb (isEmpty id))|];
    by eexists.
Qed.

(** A marker, a text, the reset marker, a text. *)
Lemma discordFormat_header (mk : ascii) (a b : gostring) :
  styleByte mk -> Forall plainByte a -> a <> [] ->
  Forall plainByte b -> b <> [] ->
  discordFormat (mk :: a ++ fReset :: b) =
    transition noStyle (styleAfter mk noStyle) ++ a ++
    transition (styleAfter mk noStyle) noStyle ++ b.
Proof.
  intros Hmk Ha Hane Hb Hbne. rewrite discordFormat_scan.
  replace ((mk :: a ++ fReset :: b) ++ [fReset])
    with (flattenRuns [([mk], a); ([fReset], b)] ++ [] ++ [fReset]).
  - rewrite scan_runs.
    2: { constructor. }
    2: { constructor; [|constructor; [|constructor]]; cbn [fst snd].
         - split; [|done]. by constructor.
         - split; [|done]. constructor; [|constructor].
           apply (bool_decide_unpack _). vm_compute. exact I. }
    cbn [renderRuns styleOf fold_left].
    replace (styleAfter fReset (styleAfter mk noStyle)) with noStyle by done.
    by rewrite closeMarkers_noStyle, app_nil_r.
  - cbn [flattenRuns map concat fst snd app]. by rewrite app_nil_r, <- !app_assoc.
Qed.

Lemma plainByte_bs (s : string) :
  bool_decide (Forall plainByte (bs s)) = true -> Forall plainByte (bs s).
Proof. apply bool_decide_eq_true_1. Qed.

(** X20.  Once ready, an ordinary line of somebody else in a bridged
    channel makes one message in the mapped Discord channel: the sender
    name in angle brackets and in bold, a zero width space on each side of
    the bold run, a space and the text, handed to [discordTransform].  Name
    and text are taken to consist of plain bytes.  When the line answers a
    recorded message, the message refers to the Discord message recorded
    last and the text loses the prefix that addresses the bridge.  Nothing
    is written to IRC. *)
Theorem ircHandler_relays_line (env : Env) (c : irc.Client) (w : World)
    (tags : gmap gostring gostring) (name target body : gostring)
    (rest : list gostring) :
  ircReady w = true -> name <> irc.CurrentNick c ->
  let dc := discordChannel env target in
  let replyID := ircReplyID (idIRCDiscord w) (tags !!! bs "+draft/reply") in
  let text :=
    if negb (isEmpty replyID)
    then TrimPrefix body (irc.CurrentNick c ++ bs ": ") else body in
  dc <> [] ->
  Forall plainByte name -> Forall plainByte text -> text <> [] ->
  text !! 0%nat <> Some "001"%char ->
  patternMediaLink_MatchString text = false ->
  exists w',
    ircHandler env c
      (irc.mkMessage tags name (bs "PRIVMSG") (target :: body :: rest)) w
      = Done tt w' /\
    discordOut w' = discordOut w ++
      [discordgo.ChannelMessageSendComplex dc
         (discordTransform env dc
            (zwsp ++ bs "**<" ++ name ++ bs ">**" ++ zwsp ++ bs " " ++ text))
         (if isEmpty replyID then None else Some (replyID, dc))] /\
    ircOut w' = ircOut w.
Proof.
  intros Hready Hname dc replyID text Hdc Hplain Htext Hne Hctcp Hmedia.
  rewrite ircHandler_privmsg by done.
  unfold ircPrivmsg. cbn [irc.Params irc.Name irc.Tags].
  rewrite index_0, bind_ret. cbv zeta. fold dc. fold replyID.
  destruct dc as [|d0 dc'] eqn:Hd; [done|]. cbn [isEmpty]. rewrite <- Hd.
  rewrite decide_False by done.
  rewrite index_1, bind_ret. fold text. clearbody text.
  destruct text as [|t0 text'] eqn:Ht; [done|].
  rewrite index_0, bind_ret.
  rewrite decide_False by (intros ->; by apply Hctcp).
  rewrite Hmedia, andb_false_r. rewrite <- Ht in *. clear Ht.
  destruct (discordSend_out env (tags !!! bs "msgid") dc
              (fBold :: bs "<" ++ name ++ bs ">" ++ fReset :: bs " " ++ text)
              replyID w) as (w' & Hrun & Hout & Hirc & _).
  exists w'. split; [exact Hrun|]. split; [|exact Hirc].
  rewrite Hout. do 3 f_equal.
  replace (fBold :: bs "<" ++ name ++ bs ">" ++ fReset :: bs " " ++ text)
    with (fBold :: (bs "<" ++ name ++ bs ">") ++ fReset :: (bs " " ++ text))
    by (by rewrite <- !app_assoc).
  rewrite discordFormat_header.
  - cbn. by rewrite <- !app_assoc.
  - apply (bool_decide_unpack _). vm_compute. exact I.
  - apply Forall_app. split; [apply plainByte_bs; by vm_compute|].
    apply Forall_app. split; [done | apply plainByte_bs; by vm_compute].
  - done.
  - apply Forall_app. split; [apply plainByte_bs; by vm_compute | done].
  - done.
Qed.

(** A line of [alice] that answers nothing. *)
Lemma ircHandler_relays_line_witness :
  exists w',
    ircHandler (demoEnv (bs "d1")) demoClient (demoPrivmsg ∅ (bs "see you")) (readyWorld ∅ ∅)
      = Done tt w' /\
    discordOut w' =
      [discordgo.ChannelMessageSendComplex (bs "D1")
         (zwsp ++ bs "**<alice>**" ++ zwsp ++ bs " see you") None] /\
    ircOut w' = [].
Proof.
  pose proof (ircHandler_relays_line (demoEnv (bs "d1")) demoClient (readyWorld ∅ ∅) ∅
                (bs "alice") (bs "#chan") (bs "see you") []) as H.
  cbv zeta in H.
  destruct H as (w' & Hrun & Hout & Hirc); try closed_goal.
  exists w'. split; [exact Hrun|]. split.
  - rewrite Hout. vm_compute. reflexivity.
  - rewrite Hirc. reflexivity.
Defined.



(** A link with a less-than sign: the URL that [patternURL] finds ends
    before the sign, and the underscore after it is escaped. *)
Lemma media_link_outside_condition :
  patternMediaLink_MatchString (bs "http://a<b_c.png") = true /\
  discordFormat (bs "http://a<b_c.png") = bs "http://a<b\_c.png".
Proof. split; vm_compute; reflexivity. Qed.

Lemma forEach_sends {A : Type} (f : A -> M unit) (call : A -> discordgo.Call)
    (l : list A) :
  (forall x w, exists w',
     f x w = Done tt w' /\ discordOut w' = discordOut w ++ [call x] /\
     ircOut w' = ircOut w) ->
  forall w, exists w',
    forEach l f w = Done tt w' /\ discordOut w' = discordOut w ++ map call l /\
    ircOut w' = ircOut w.
Proof.
  intros Hf. induction l as [|x l IH]; intros w; cbn [forEach map].
  - exists w. by rewrite app_nil_r.
  - destruct (Hf x w) as (w1 & Hx & Hout1 & Hirc1).
    destruct (IH w1) as (w2 & Hl & Hout2 & Hirc2).
    exists w2. unfold mbind, M_bind. rewrite Hx. split; [exact Hl|].
    split; [|congruence]. rewrite Hout2, Hout1, <- app_assoc. reflexivity.
Qed.

(** X22.  Once ready, a change of nick of somebody else is announced once
    in every configured Discord channel, whether the user is in the mapped
    IRC channel or not: the old nick in italics, between zero width spaces,
    and the new nick.  The channels come in the order in which the loop
    goes through the configuration map, which is not determined; the
    statement fixes the calls up to their order.  Both nicks are taken to
    consist of plain bytes.  Nothing is written to IRC. *)
Theorem ircHandler_nick (env : Env) (c : irc.Client) (w : World)
    (tags : gmap gostring gostring) (name new : gostring) (rest : list gostring) :
  ircReady w = true -> name <> irc.CurrentNick c ->
  Forall plainByte name -> name <> [] -> Forall plainByte new ->
  let replyID := ircReplyID (idIRCDiscord w) (tags !!! bs "+draft/reply") in
  let text :=
    zwsp ++ bs "*" ++ name ++ bs "*" ++ zwsp ++ bs " is now known as " ++ new in
  exists w' calls,
    ircHandler env c (irc.mkMessage tags name (bs "NICK") (new :: rest)) w
      = Done tt w' /\
    discordOut w' = discordOut w ++ calls /\
    calls ≡ₚ
      map (fun e => discordgo.ChannelMessageSendComplex (fst e)
                      (discordTransform env (fst e) text)
                      (if isEmpty replyID then None else Some (replyID, fst e)))
          (cfg_Channels env) /\
    ircOut w' = ircOut w.
Proof.
  intros Hready Hname Hplain Hne Hnew replyID text.
  unfold ircHandler. cbn [irc.Params irc.Name irc.Tags irc.Command].
  rewrite bool_decide_eq_false_2 by done. cbn [andb].
  unfold mbind at 1 2, M_bind at 1 2, getWorld. cbn beta iota.
  rewrite ircHandshake_other by discriminate.
  unfold mbind at 1, M_bind at 1. cbn beta iota. rewrite Hready. cbn [negb orb].
  rewrite decide_True by reflexivity. fold replyID.
  set (call := fun e : gostring * gostring =>
                 discordgo.ChannelMessageSendComplex (fst e)
                   (discordTransform env (fst e) text)
                   (if isEmpty replyID then None else Some (replyID, fst e))).
  destruct (forEach_sends
              (fun e : gostring * gostring =>
                 new0 ← index (new :: rest) 0;
                 discordSend env (tags !!! bs "msgid") (fst e)
                   (fItalics :: name ++ fReset :: bs " is now known as " ++ new0)
                   replyID)
              call (cfg_Channels env)) with (w := w) as (w' & Hrun & Hout & Hirc).
  - intros e w0. rewrite index_0, bind_ret.
    destruct (discordSend_out env (tags !!! bs "msgid") (fst e)
                (fItalics :: name ++ fReset :: bs " is now known as " ++ new)
                replyID w0) as (w1 & Hrun & Hout & Hirc & _).
    exists w1. split; [exact Hrun|]. split; [|exact Hirc].
    rewrite Hout. unfold call. do 3 f_equal.
    rewrite discordFormat_header.
    + unfold text. cbn. by rewrite <- ?app_assoc.
    + apply (bool_decide_unpack _). vm_compute. exact I.
    + done.
    + done.
    + apply Forall_app. split; [apply plainByte_bs; by vm_compute | done].
    + done.
  - exists w', (map call (cfg_Channels env)). by repeat split.
Qed.

Lemma ircHandler_nick_witness :
  exists w' calls,
    ircHandler (demoEnv (bs "d1")) demoClient
      (irc.mkMessage ∅ (bs "alice") (bs "NICK") [bs "alicia"]) (readyWorld ∅ ∅)
      = Done tt w' /\
    discordOut w' = calls /\
    calls ≡ₚ
      [discordgo.ChannelMessageSendComplex (bs "D1")
         (zwsp ++ bs "*alice*" ++ zwsp ++ bs " is now known as alicia") None] /\
    ircOut w' = [].
Proof.
  pose proof (ircHandler_nick (demoEnv (bs "d1")) demoClient (readyWorld ∅ ∅) ∅
                (bs "alice") (bs "alicia") []) as H.
  cbv zeta in H.
  destruct H as (w' & calls & Hrun & Hout & Hperm & Hirc); try closed_goal.
  exists w', calls. split; [exact Hrun|]. split; [by rewrite Hout|]. split.
  - etrans; [exact Hperm|]. vm_compute. reflexivity.
  - rewrite Hirc. reflexivity.
Defined.
(** ** The channel mapping and the sender prefix *)

Lemma find_NoDup {A K : Type} `{EqDecision K} (p : A -> K) (l : list A) (x : A) :
  NoDup (map p l) -> x ∈ l ->
  List.find (fun e => bool_decide (p e = p x)) l = Some x.
Proof.
  induction l as [|y l IH]; intros Hnd Hx; [by apply elem_of_nil in Hx|].
  cbn [map] in Hnd. apply NoDup_cons in Hnd as [Hy Hnd].
  apply elem_of_cons in Hx as [-> | Hx]; cbn [List.find].
  - by rewrite bool_decide_eq_true_2.
  - rewrite bool_decide_eq_false_2; [by apply IH|].
    intros Heq. apply Hy. rewrite Heq. by apply list_elem_of_fmap_2.
Qed.

Lemma find_absent {A K : Type} `{EqDecision K} (p : A -> K) (l : list A) (k : K) :
  k ∉ map p l -> List.find (fun e => bool_decide (p e = k)) l = None.
Proof.
  induction l as [|y l IH]; intros Hk; [done|]. cbn [List.find].
  cbn [map] in Hk. apply not_elem_of_cons in Hk as [Hne Hk].
  rewrite bool_decide_eq_false_2 by done. by apply IH.
Qed.

(** X23.  When no IRC channel is configured for two Discord channels, the
    lookups in the two directions are inverse to one another:
    [discordChannel] gives, for the IRC channel of an entry, the Discord
    channel of that entry, and the lookup by Discord channel in the Discord
    handlers gives the entry back.  An IRC channel that is not configured
    gives the empty string.  (The keys of the configuration map, the
    Discord channels, are distinct by construction.) *)
Theorem discordChannel_inverse (env : Env) :
  NoDup (map snd (cfg_Channels env)) ->
  NoDup (map fst (cfg_Channels env)) ->
  (forall dc ic, (dc, ic) ∈ cfg_Channels env ->
     discordChannel env ic = dc /\
     List.find (fun e => bool_decide (fst e = dc)) (cfg_Channels env)
       = Some (dc, ic)) /\
  (forall ic, ic ∉ map snd (cfg_Channels env) -> discordChannel env ic = []).
Proof.
  intros Hsnd Hfst. split.
  - intros dc ic Hin. split.
    + unfold discordChannel.
      by rewrite (find_NoDup snd (cfg_Channels env) (dc, ic) Hsnd Hin).
    + exact (find_NoDup fst (cfg_Channels env) (dc, ic) Hfst Hin).
  - intros ic Hic. unfold discordChannel. by rewrite find_absent.
Qed.

Lemma discordChannel_inverse_witness :
  discordChannel (demoEnv []) (bs "#chan") = bs "D1" /\
  discordChannel (demoEnv []) (bs "#other") = [].
Proof.
  destruct (discordChannel_inverse (demoEnv [])) as [Hin Hout].
  - repeat constructor. by intros H%elem_of_nil.
  - repeat constructor. by intros H%elem_of_nil.
  - split.
    + apply (Hin (bs "D1") (bs "#chan")). by constructor.
    + apply Hout. apply (bool_decide_unpack _). vm_compute. exact I.
Defined.



(** X25.  A name of more than one byte whose first byte cannot start a
    UTF-8 sequence loses that byte: the prefix shows the replacement
    character U+FFFD in its place, followed by the zero width space and the
    rest of the name. *)
Theorem senderNick_invalid_first_byte (b : ascii) (rest : gostring) :
  rest <> [] ->
  0x80 <= byteZ b < 0xC2 \/ 0xF5 <= byteZ b ->
  senderNick (b :: rest) = ["239"; "191"; "189"]%char ++ zwsp ++ rest.
Proof.
  intros Hrest Hb. unfold senderNick.
  replace (1 <? length (b :: rest))%nat with true
    by (destruct rest; [done | reflexivity]).
  assert (Hd : DecodeRuneInString (b :: rest) = (RuneError, 1%nat)).
  { unfold DecodeRuneInString. cbv zeta.
    destruct (Z.ltb_spec (byteZ b) 0x80); [lia|].
    destruct (Z.ltb_spec (byteZ b) 0xC2); [done|].
    destruct (Z.ltb_spec (byteZ b) 0xE0); [lia|].
    destruct (Z.ltb_spec (byteZ b) 0xF0); [lia|].
    destruct (Z.ltb_spec (byteZ b) 0xF5); [lia|]. reflexivity. }
  rewrite Hd. cbn [drop].
  replace (stringOfRunes [RuneError; 8203])
    with (["239"; "191"; "189"]%char ++ zwsp) by (vm_compute; reflexivity).
  by rewrite <- app_assoc.
Qed.

(** The name that starts with the byte FF. *)
Lemma senderNick_invalid_first_byte_witness :
  senderNick ("255"%char :: bs "ob") = ["239"; "191"; "189"]%char ++ zwsp ++ bs "ob".
Proof.
  apply senderNick_invalid_first_byte; [discriminate|].
  right. vm_compute. discriminate.
Defined.
(** ** [regexReplaceAll] *)

Lemma slice_Some (s : gostring) (a b : nat) :
  (a <= b <= length s)%nat -> slice s a b = Some (take (b - a) (drop a s)).
Proof.
  intros H. unfold slice.
  destruct (Nat.leb_spec a b); [|lia].
  destruct (Nat.leb_spec b (length s)); [|lia]. reflexivity.
Qed.

Lemma drop_split (s : gostring) (a b : nat) :
  (a <= b)%nat -> drop a s = take (b - a) (drop a s) ++ drop b s.
Proof.
  intros H. rewrite <- (take_drop (b - a) (drop a s)) at 1.
  rewrite drop_drop. do 2 f_equal. lia.
Qed.

(** The loop never panics on the matches of the regexp package. *)
Lemma replaceLoop_Some (s : gostring) (f : list nat -> gostring)
    (matches : list (list nat)) (from : nat) :
  matchesFrom s from matches -> is_Some (replaceLoop s f matches).
Proof.
  revert from. induction matches as [|m rest IH]; intros from H; [by eexists|].
  cbn [matchesFrom] in H. destruct H as (b & e & Hb & He & Hbe & Hes & Hrest).
  cbn [replaceLoop]. rewrite He. cbn [mbind option_bind].
  destruct (IH e Hrest) as [tail Htail].
  destruct rest as [|m' rest'].
  - rewrite slice_Some by lia. cbn [mbind option_bind]. by eexists.
  - cbn [matchesFrom] in Hrest.
    destruct Hrest as (b' & e' & Hb' & _ & Hbe' & Hes' & _).
    rewrite Hb'. cbn [mbind option_bind]. rewrite slice_Some by lia.
    cbn [mbind option_bind]. rewrite Htail. by eexists.
Qed.

(** When every replacement is the matched text, the loop gives the text
    from the start of the first match on. *)
Lemma replaceLoop_unresolved (s : gostring) (f : list nat -> gostring)
    (matches : list (list nat)) (from : nat) :
  matchesFrom s from matches ->
  (forall m b e, m ∈ matches -> m !! 0%nat = Some b -> m !! 1%nat = Some e ->
                 f m = take (e - b) (drop b s)) ->
  replaceLoop s f matches =
    Some match matches with
         | [] => []
         | m :: _ => drop (default 0%nat (m !! 0%nat)) s
         end.
Proof.
  revert from. induction matches as [|m rest IH]; intros from H Hf; [done|].
  cbn [matchesFrom] in H. destruct H as (b & e & Hb & He & Hbe & Hes & Hrest).
  cbn [replaceLoop]. rewrite He, Hb. cbn [mbind option_bind default].
  rewrite (IH e Hrest) by (intros; eapply Hf; [by constructor | done..]).
  rewrite (Hf m b e) by (done || constructor).
  unfold id. destruct rest as [|m' rest'].
  - rewrite slice_Some by lia. cbn [mbind option_bind]. f_equal.
    rewrite app_nil_r.
    transitivity (take (e - b) (drop b s) ++ drop e s).
    + f_equal. apply take_ge. rewrite length_drop. lia.
    + symmetry. apply drop_split. lia.
  - cbn [matchesFrom] in Hrest.
    destruct Hrest as (b' & e' & Hb' & _ & Hbe' & Hes' & _).
    rewrite Hb'. cbn [mbind option_bind default]. rewrite slice_Some by lia.
    cbn [mbind option_bind]. f_equal. unfold id.
    rewrite <- (drop_split s e b') by lia. symmetry. apply drop_split. lia.
Qed.

(** X26.  On the matches that the regexp package returns,
    [regexReplaceAll] never slices out of range; and when the callback
    gives back the matched text for every match, as the callbacks of
    [discordTransformPart] do for a mention or an emoji that they cannot
    resolve, the text comes out unchanged. *)
Theorem regexReplaceAll_unresolved (matches : list (list nat)) (s : gostring)
    (f : list nat -> gostring) :
  matchesFrom s 0 matches ->
  is_Some (regexReplaceAll matches s f) /\
  ((forall m b e, m ∈ matches -> m !! 0%nat = Some b -> m !! 1%nat = Some e ->
                  f m = take (e - b) (drop b s)) ->
   regexReplaceAll matches s f = Some s).
Proof.
  intros H. destruct matches as [|m rest]; [by split; [eexists|]|].
  pose proof H as H'. cbn [matchesFrom] in H'.
  destruct H' as (b & e & Hb & He & Hbe & Hes & _).
  unfold regexReplaceAll. rewrite Hb. cbn [mbind option_bind].
  rewrite slice_Some by lia. cbn [mbind option_bind]. split.
  - destruct (replaceLoop_Some s f (m :: rest) 0 H) as [r ->]. by eexists.
  - intros Hf. rewrite (replaceLoop_unresolved s f (m :: rest) 0 H Hf).
    cbn [mbind option_bind]. rewrite Hb. cbn [default].
    rewrite Nat.sub_0_r, drop_0. by rewrite take_drop.
Qed.

(** Two matches in the text [a :x: b :y:], none resolved. *)
Lemma regexReplaceAll_unresolved_witness :
  regexReplaceAll [[2; 5; 3; 4]; [8; 11; 9; 10]]%nat (bs "a :x: b :y:")
    (fun m => match m with
              | b :: e :: _ => take (e - b) (drop b (bs "a :x: b :y:"))
              | _ => []
              end)
  = Some (bs "a :x: b :y:").
Proof.
  apply regexReplaceAll_unresolved.
  - cbn [matchesFrom]. repeat (eexists _, _; repeat split; try reflexivity; try (simpl; lia)).
  - intros m b e _ Hb He. destruct m as [|b0 [|e0 m]]; try discriminate.
    by injection Hb as ->; injection He as ->.
Defined.
(** ** The records of [idIRCDiscord] are never lost *)

Lemma extends_refl (w : World) : extends w w.
Proof. by intros k. Qed.

Lemma extends_trans (w1 w2 w3 : World) :
  extends w1 w2 -> extends w2 w3 -> extends w1 w3.
Proof. intros H12 H23 k. etrans; [apply H12 | apply H23]. Qed.

Lemma extends_same (w w' : World) :
  idIRCDiscord w' = idIRCDiscord w -> extends w w'.
Proof. intros H k. by rewrite H. Qed.

Lemma extends_append (w w' : World) (key x : gostring) :
  idIRCDiscord w' = <[key := (idIRCDiscord w !!! key) ++ [x]]> (idIRCDiscord w) ->
  extends w w'.
Proof.
  intros H k. rewrite H. destruct (decide (k = key)) as [->|Hne].
  - rewrite lookup_total_insert_eq. by apply prefix_app_r.
  - by rewrite lookup_total_insert_ne.
Qed.

Lemma keeps_ret {A : Type} (a : A) : keepsRecords (mret a).
Proof. intros w. apply extends_refl. Qed.

Lemma keeps_panic {A : Type} : keepsRecords (@panic A).
Proof. by intros w. Qed.

Lemma keeps_getWorld : keepsRecords getWorld.
Proof. intros w. apply extends_refl. Qed.

Lemma keeps_index {A : Type} (l : list A) (i : Z) : keepsRecords (index l i).
Proof.
  unfold index. destruct (i <? 0); [apply keeps_panic|].
  destruct (l !! Z.to_nat i); [apply keeps_ret | apply keeps_panic].
Qed.

Lemma keeps_bind {A B : Type} (h : M A) (k : A -> M B) :
  keepsRecords h -> (forall a, keepsRecords (k a)) -> keepsRecords (h ≫= k).
Proof.
  intros Hh Hk w. unfold mbind, M_bind. specialize (Hh w).
  destruct (h w) as [a w1|]; [|done]. specialize (Hk a w1).
  destruct (k a w1) as [b w2|]; [|done]. by eapply extends_trans.
Qed.

Lemma keeps_forEach {A : Type} (l : list A) (f : A -> M unit) :
  (forall x, keepsRecords (f x)) -> keepsRecords (forEach l f).
Proof.
  intros Hf. induction l as [|x l IH]; cbn [forEach]; [apply keeps_ret|].
  apply keeps_bind; [apply Hf | by intros _].
Qed.

Lemma keeps_modify (f : World -> World) :
  (forall w, extends w (f w)) -> keepsRecords (modify f).
Proof. intros Hf w. apply Hf. Qed.

Lemma keeps_clientWrite (m : irc.Message) : keepsRecords (clientWrite m).
Proof. apply keeps_modify. intros w. by apply extends_same. Qed.

Lemma keeps_discordCall (call : discordgo.Call) : keepsRecords (discordCall call).
Proof. apply keeps_modify. intros w. by apply extends_same. Qed.

Lemma keeps_recordEcho (msgID discordID : gostring) :
  keepsRecords (modify (recordEcho msgID discordID)).
Proof. apply keeps_modify. intros w. by apply (extends_append _ _ msgID discordID). Qed.

Lemma keeps_discordSend (env : Env) (id dc msg replyID : gostring) :
  keepsRecords (discordSend env id dc msg replyID).
Proof.
  unfold discordSend. cbv zeta. apply keeps_bind; [apply keeps_getWorld|].
  intros w. apply keeps_bind.
  - apply keeps_modify. intros w0. by apply extends_same.
  - intros _. destruct (sendResult env _) as [mID|]; [|apply keeps_ret].
    destruct (negb (isEmpty id)); [|apply keeps_ret].
    apply keeps_modify. intros w0. by apply (extends_append _ _ id mID).
Qed.

(** The steps that the proofs about the handlers repeat: split the
    computation at each bind, branch and loop, and close the leaves. *)
Ltac keeps_step :=
  first
    [ apply keeps_ret | apply keeps_panic | apply keeps_getWorld
    | apply keeps_index | apply keeps_discordSend | apply keeps_discordCall
    | apply keeps_clientWrite | apply keeps_recordEcho
    | (apply keeps_modify; intros ?; by apply extends_same)
    | (apply keeps_forEach; intros ?)
    | (apply keeps_bind; [|intros ?])
    | match goal with
      | |- keepsRecords (if ?b then _ else _) => destruct b
      | |- keepsRecords (match ?x with _ => _ end) => destruct x
      end
    | progress cbv zeta ].

Lemma keeps_ircHandshake (env : Env) (c : irc.Client) (m : irc.Message) :
  keepsRecords (ircHandshake env c m).
Proof. unfold ircHandshake. repeat keeps_step. Qed.

(** X27.  No IRC event makes the bridge forget a Discord message that it
    has recorded for an IRC message: whenever [ircHandler] returns, every
    list of [idIRCDiscord] is what it was, possibly with new IDs at its
    end.  Replies and redactions that come later from IRC therefore still
    find every message that they found before. *)
Theorem ircHandler_keeps_records (env : Env) (c : irc.Client) (m : irc.Message)
    (w w' : World) :
  ircHandler env c m w = Done tt w' ->
  forall k, (idIRCDiscord w !!! k) `prefix_of` (idIRCDiscord w' !!! k).
Proof.
  intros Hrun.
  assert (H : keepsRecords (ircHandler env c m)).
  { unfold ircHandler. repeat keeps_step. apply keeps_ircHandshake. }
  specialize (H w). by rewrite Hrun in H.
Qed.

(** The line of [alice] is recorded with the Discord message [d1]; the
    record of the earlier line [i0] stays. *)
Lemma ircHandler_keeps_records_witness :
  exists w',
    ircHandler (demoEnv (bs "d1")) demoClient
      (demoPrivmsg {[bs "msgid" := bs "i1"]} (bs "hi"))
      (readyWorld {[bs "i0" := [bs "d0"]]} ∅) = Done tt w' /\
    forall k, (idIRCDiscord (readyWorld {[bs "i0" := [bs "d0"]]} ∅) !!! k)
                `prefix_of` (idIRCDiscord w' !!! k).
Proof.
  eexists. split; [vm_compute; reflexivity|].
  apply (ircHandler_keeps_records (demoEnv (bs "d1")) demoClient
           (demoPrivmsg {[bs "msgid" := bs "i1"]} (bs "hi"))
           (readyWorld {[bs "i0" := [bs "d0"]]} ∅)).
  vm_compute. reflexivity.
Defined.
(** ** The handshake as a whole *)

Lemma ircHandshake_005_modes (env : Env) (c : irc.Client) (m : irc.Message)
    (w : World) :
  irc.Command m = bs "005" ->
  exists modes,
    Forall (fun x => irc.Command x = bs "MODE") modes /\
    ircHandshake env c m w =
      Done true (wrote w (modes ++ [outMessage (bs "PING") [bs "ready"]])).
Proof.
  intros Hcmd. unfold ircHandshake. rewrite Hcmd.
  rewrite decide_False by discriminate. rewrite decide_True by reflexivity.
  unfold mbind, M_bind.
  destruct (2 <? length (irc.Params m))%nat.
  - set (g := fun param : gostring =>
               let '(key, value) := Cut param "="%char in
               if decide (key = bs "BOT")
               then [outMessage (bs "MODE") [irc.CurrentNick c; bs "+" ++ value]]
               else []).
    exists (concat (map g (take (length (irc.Params m) - 2) (drop 1 (irc.Params m))))).
    split.
    + apply Forall_concat, Forall_fmap, Forall_forall. intros x _. unfold compose, g. cbv beta.
      destruct (Cut x "="%char) as [key value].
      destruct (decide (key = bs "BOT")); [|constructor].
      constructor; [reflexivity | constructor].
    + rewrite (forEach_wrote _ g).
      * unfold clientWrite, modify, wrote. cbn. by rewrite <- app_assoc.
      * intros x w0. unfold g. destruct (Cut x "="%char) as [key value].
        destruct (decide (key = bs "BOT")); [reflexivity | by rewrite wrote_nil].
  - exists []. split; [constructor | reflexivity].
Qed.

(** X28.  The handshake makes the bridge ready: after the welcome reply
    [001], a [005] reply and the [PONG] that answers the bridge's [PING],
    all from the server, the client is installed and the readiness flag is
    set.  On the way the bridge has written one [JOIN] for each configured
    channel, then [MODE] messages only, then [PING ready]; it has made no
    call on Discord and has not touched the tables. *)
Theorem handshake_makes_ready (env : Env) (c : irc.Client) (w : World)
    (welcome isupport pong : irc.Message) (params : list gostring) :
  irc.Name welcome <> irc.CurrentNick c ->
  irc.Name isupport <> irc.CurrentNick c ->
  irc.Name pong <> irc.CurrentNick c ->
  irc.Command welcome = bs "001" ->
  irc.Command isupport = bs "005" ->
  irc.Command pong = bs "PONG" ->
  irc.Params pong = params ++ [bs "ready"] ->
  exists modes,
    Forall (fun x => irc.Command x = bs "MODE") modes /\
    (ircHandler env c welcome ;; ircHandler env c isupport ;;
     ircHandler env c pong) w =
    Done tt
      (mkWorld (idIRCDiscord w) (idDiscordIRC w) true (Some c)
         (ircOut w ++
          map (fun e => outMessage (bs "JOIN") [snd e]) (cfg_Channels env) ++
          modes ++ [outMessage (bs "PING") [bs "ready"]])
         (discordOut w)).
Proof.
  intros Hn1 Hn5 Hnp H1 H5 Hp Hparams.
  set (w1 := mkWorld (idIRCDiscord w) (idDiscordIRC w) (ircReady w) (Some c)
               (ircOut w ++ map (fun e => outMessage (bs "JOIN") [snd e])
                                (cfg_Channels env))
               (discordOut w)).
  destruct (ircHandshake_005_modes env c isupport w1 H5) as (modes & Hmodes & Hrun5).
  exists modes. split; [exact Hmodes|].
  unfold mbind, M_bind.
  rewrite (ircHandler_handled env c welcome w w1 Hn1) by by apply ircHandshake_001.
  rewrite (ircHandler_handled env c isupport w1 _ Hn5 Hrun5).
  rewrite (ircHandler_handled env c pong _ _ Hnp
             (ircHandshake_PONG env c pong _ params (bs "ready") Hp Hparams)).
  unfold wrote, w1. cbn.
  by rewrite <- app_assoc.
Qed.

Lemma handshake_makes_ready_witness :
  exists w',
    (ircHandler (demoEnv []) demoClient
       (irc.mkMessage ∅ (bs "irc.example") (bs "001") [bs "bridge"; bs "Welcome"]) ;;
     ircHandler (demoEnv []) demoClient
       (irc.mkMessage ∅ (bs "irc.example") (bs "005")
          [bs "bridge"; bs "BOT=B"; bs "are supported"]) ;;
     ircHandler (demoEnv []) demoClient
       (irc.mkMessage ∅ (bs "irc.example") (bs "PONG") [bs "irc.example"; bs "ready"]))
      emptyWorld = Done tt w' /\
    ircReady w' = true /\ ircClient w' = Some demoClient.
Proof.
  destruct (handshake_makes_ready (demoEnv []) demoClient emptyWorld
              (irc.mkMessage ∅ (bs "irc.example") (bs "001") [bs "bridge"; bs "Welcome"])
              (irc.mkMessage ∅ (bs "irc.example") (bs "005")
                 [bs "bridge"; bs "BOT=B"; bs "are supported"])
              (irc.mkMessage ∅ (bs "irc.example") (bs "PONG")
                 [bs "irc.example"; bs "ready"])
              [bs "irc.example"]) as (modes & _ & H);
    try discriminate; try reflexivity.
  eexists. split; [exact H|]. split; reflexivity.
Defined.
(** ** What the bridge does not relay *)

(** X29.  The bridge does not relay its own traffic.  A message that IRC
    delivers under the bridge's own nick never leads to a call on Discord
    nor to a write on IRC; an event that Discord delivers for the bridge's
    own user leaves the state as it is. *)
Theorem no_echo_loop (env : Env) :
  (forall c m w w',
     irc.Name m = irc.CurrentNick c ->
     ircHandler env c m w = Done tt w' ->
     discordOut w' = discordOut w /\ ircOut w' = ircOut w) /\
  (forall m w,
     discordgo.AuthorID m = stateUserID env -> discordMessage env m w = Done tt w) /\
  (forall channelID id w,
     discordDelete env (Some (stateUserID env)) channelID id w = Done tt w) /\
  (forall channelID messageID emojiName w,
     discordReact env (stateUserID env) channelID messageID emojiName w = Done tt w) /\
  (forall channelID w,
     discordTyping env (stateUserID env) channelID w = Done tt w).
Proof.
  split; [|split; [|split; [|split]]].
  - intros c m w w' Hname. unfold ircHandler.
    rewrite bool_decide_eq_true_2 by done. cbn [andb].
    destruct (bool_decide_reflect (irc.Command m = bs "PRIVMSG")) as [Hcmd|Hcmd];
      cbn [negb]; [|by intros [= <-]].
    unfold mbind at 1 2, M_bind at 1 2, getWorld. cbn beta iota.
    rewrite ircHandshake_other by (rewrite Hcmd; discriminate).
    unfold mbind at 1, M_bind at 1. cbn beta iota.
    destruct (ircReady w); cbn [negb orb]; [|by intros [= <-]].
    rewrite Hcmd. do 7 rewrite decide_False by discriminate.
    rewrite decide_True by reflexivity.
    unfold ircPrivmsg, mbind at 1, M_bind at 1.
    destruct (index (irc.Params m) 0 w) as [target w0|] eqn:Hi; [|done].
    assert (w0 = w) as ->.
    { unfold index in Hi. destruct (0 <? 0); [done|].
      destruct (irc.Params m !! Z.to_nat 0); [|done].
      by injection Hi as _ ->. }
    cbv zeta. destruct (isEmpty (discordChannel env target)); [by intros [= <-]|].
    rewrite decide_True by done.
    destruct (negb (isEmpty _)); by intros [= <-].
  - intros m w Hauthor. unfold discordMessage. by rewrite decide_True by done.
  - intros channelID id w. unfold discordDelete.
    by rewrite bool_decide_eq_true_2 by done.
  - intros channelID messageID emojiName w. unfold discordReact.
    by rewrite decide_True by done.
  - intros channelID w. unfold discordTyping. by rewrite decide_True by done.
Qed.

(** The bridge's own line, echoed by the server. *)
Lemma no_echo_loop_witness :
  exists w',
    ircHandler (demoEnv []) demoClient
      (irc.mkMessage {[bs "msgid" := bs "i9"; bs "+discord" := bs "d7"]} (bs "bridge")
         (bs "PRIVMSG") [bs "#chan"; bs "<bob> hi"])
      (readyWorld ∅ ∅) = Done tt w' /\
    discordOut w' = [] /\ ircOut w' = [].
Proof.
  destruct (no_echo_loop (demoEnv [])) as [H _].
  eexists. split; [vm_compute; reflexivity|].
  apply (H demoClient
           (irc.mkMessage {[bs "msgid" := bs "i9"; bs "+discord" := bs "d7"]} (bs "bridge")
              (bs "PRIVMSG") [bs "#chan"; bs "<bob> hi"])
           (readyWorld ∅ ∅)); [reflexivity|].
  vm_compute. reflexivity.
Defined.

(** ** CTCP *)







